(** * Hydrophone: pod observation (pkg/client/check.go) and configuration
      completion (package types)

    A shallow embedding of [PrintE2ELogs], [FetchExitCode] and
    [Configuration.Complete], with the properties of the pod lifecycle
    specification stated over it.

    Conventions.
    - Go strings are byte strings: [string].  Go [int], [int32] and
      [time.Duration] values are [Z]; the conversion [int(x)] of an [int32]
      is value preserving, so it is the identity here.
    - A Go [error] is represented by its message; wrapping with
      [fmt.Errorf("...: %w", err)] prepends the prefix.
    - Everything the functions obtain from the cluster, the operating system
      or packages outside the two source files is an explicit input: a field
      of [Clientset], or a [Variable] of the enclosing section. *)

From Stdlib Require Import String Ascii List ZArith Bool Arith Lia.
Import ListNotations.
Local Open Scope string_scope.
Local Open Scope list_scope.
Local Open Scope Z_scope.

Definition error : Type := string.

(** [fmt.Errorf(prefix ++ "%w", err)] *)
Definition Errorf_w (prefix : string) (err : error) : error := (prefix ++ err)%string.

(** ** k8s.io/api/core/v1: the part of a pod the code reads *)
Module v1.

(** [type PodPhase string] *)
Definition PodPhase : Type := string.
Definition PodPending   : PodPhase := "Pending".
Definition PodRunning   : PodPhase := "Running".
Definition PodSucceeded : PodPhase := "Succeeded".
Definition PodFailed    : PodPhase := "Failed".
Definition PodUnknown   : PodPhase := "Unknown".

Record ContainerStateTerminated : Type :=
  { ExitCode : Z (* int32 *) }.

(** [Terminated] is a pointer: [None] is Go's [nil]. *)
Record ContainerState : Type :=
  { Terminated : option ContainerStateTerminated }.

Record ContainerStatus : Type :=
  { Name : string;
    State : ContainerState }.

Record PodStatus : Type :=
  { Phase : PodPhase;
    ContainerStatuses : list ContainerStatus }.

Record Pod : Type :=
  { Status : PodStatus }.

End v1.

(** ** k8s.io/apimachinery/pkg/watch *)
Module watch.

(** A [runtime.Object] as far as the type assertion of [event.Object] to a
    pod pointer can tell: a pod, or a value of some other dynamic type. *)
Inductive Object : Type :=
| PodObject (pod : v1.Pod)
| OtherObject (kind : string).

Record Event : Type :=
  { Type_ : string;
    Object_ : Object }.

(** What [ResultChan()] yields over its life: the events it delivers, in
    order, and whether it is closed after the last one.  A channel that is
    never closed blocks its reader once the events are exhausted. *)
Record Interface : Type :=
  { delivered : list Event;
    closes : bool }.

End watch.

(** ** package client *)
Module client.
Import v1 watch.

(** Signals of the [streamLogs] channels, in the order [select] takes them. *)
Inductive Signal : Type :=
| errCh (err : error)
| logCh (line : string)
| doneCh (b : bool).

(** The capabilities of [c.ClientSet] (and of the informer built on it)
    that the two functions consume. *)
Record Clientset : Type :=
  { (** [CoreV1().Pods(namespace).Watch(ctx, ListOptions{FieldSelector})] *)
    PodsWatch : string -> string -> watch.Interface + error;
    (** [podInformer.Informer().AddEventHandler(...)]: its error, if any *)
    AddEventHandler : option error;
    (** [podInformer.Lister().Pods(namespace).Get(name)], at the n-th call
        of the polling loop: a pod pointer ([None] is [nil]) and an error *)
    ListerGet : string -> string -> nat -> option Pod * option error;
    (** what the goroutine [getPodLogs] sends over the stream's channels *)
    PodLogs : list Signal }.

Record Client : Type :=
  { ClientSet : Clientset;
    ExitCode : Z }.

Definition set_ExitCode (code : Z) (c : Client) : Client :=
  {| ClientSet := ClientSet c; ExitCode := code |}.

(** How a call ends.  [Fatal] is a call of [log.Fatal]; hydrophone's [log]
    package is not among the sources, and the specification describes the
    call as the fatal-abort path that terminates the whole process.
    [Blocked] is a receive that never completes. *)
Inductive Outcome : Type :=
| Returned (err : option error)
| Fatal (err : error)
| Panicked (msg : string)
| Blocked.

(** Observable steps, in program order. *)
Inductive Effect : Type :=
| Recv (ev : Event)          (* an event taken from the result channel *)
| Store (code : Z)           (* an assignment to [c.ExitCode] *)
| Log (msg : string)         (* [log.Println], [log.Printf] *)
| Get (n : nat)              (* the n-th lister lookup *)
| Select (s : Signal)        (* a signal taken by [select] *)
| Print (text : string).     (* [fmt.Print] *)

(** *** A state-and-trace monad over the receiver [c] *)
Definition M (A : Type) : Type := Client -> A * Client * list Effect.

Definition ret {A} (a : A) : M A := fun c => (a, c, []).

Definition bind {A B} (m : M A) (k : A -> M B) : M B :=
  fun c =>
    let '(a, c1, t1) := m c in
    let '(b, c2, t2) := k a c1 in
    (b, c2, t1 ++ t2).

Definition tell (e : Effect) : M unit := fun c => (tt, c, [e]).

Definition assign_ExitCode (code : Z) : M unit :=
  fun c => (tt, set_ExitCode code c, [Store code]).

Definition self : M Client := fun c => (c, c, []).

Declare Scope go_scope.
Delimit Scope go_scope with go.
Notation "x <- m ;; k" := (bind m (fun x => k))
  (at level 61, m at next level, right associativity) : go_scope.
Notation "m ;; k" := (bind m (fun _ => k))
  (at level 61, right associativity) : go_scope.
Local Open Scope go_scope.

Definition result {A} (r : A * Client * list Effect) : A := fst (fst r).
Definition receiver {A} (r : A * Client * list Effect) : Client := snd (fst r).
Definition trace {A} (r : A * Client * list Effect) : list Effect := snd r.

(** The exit codes assigned and the events received, read off a trace. *)
Fixpoint stores (t : list Effect) : list Z :=
  match t with
  | [] => []
  | Store code :: t' => code :: stores t'
  | _ :: t' => stores t'
  end.

Fixpoint received (t : list Effect) : list Event :=
  match t with
  | [] => []
  | Recv ev :: t' => ev :: received t'
  | _ :: t' => received t'
  end.

Section Check.

(** [common.PodName], [common.ConformanceContainer] and the process-wide
    [viper] registry are declared outside the two source files. *)
Variable PodName : string.
Variable ConformanceContainer : string.
Variable viper_GetString : string -> string.
(** [fmt.Print] to standard output: its error, if any. *)
Variable fmt_Print : string -> option error.

(** **** FetchExitCode *)

(** check.go 109-113: the scan of a Succeeded or Failed pod. *)
Fixpoint scanTerminal (statuses : list ContainerStatus) : M unit :=
  match statuses with
  | [] => ret tt
  | containerStatus :: rest =>
      (if (Name containerStatus =? ConformanceContainer)%string then
         match Terminated (State containerStatus) with
         | Some t => assign_ExitCode (v1.ExitCode t)
         | None => ret tt
         end
       else ret tt) ;;
      scanTerminal rest
  end.

(** check.go 117-125: the scan of a Running pod; the value is the local
    [terminated], which starts out as the argument. *)
Fixpoint scanRunning (statuses : list ContainerStatus) (terminated : bool)
  : M bool :=
  match statuses with
  | [] => ret terminated
  | containerStatus :: rest =>
      match Terminated (State containerStatus) with
      | Some t =>
          tell (Log ("Container " ++ Name containerStatus ++ " terminated.")%string) ;;
          (if (Name containerStatus =? ConformanceContainer)%string
           then assign_ExitCode (v1.ExitCode t)
           else ret tt) ;;
          scanRunning rest true
      | None => scanRunning rest terminated
      end
  end.

(** How one iteration of the [range] loop ends. *)
Inductive Flow : Type :=
| Next         (* fall through to the next receive *)
| Break        (* [break], lines 114 and 127 *)
| ReturnNil.   (* [return nil], line 104 *)

(** check.go 100-129: the body of the [range] loop. *)
Definition onEvent (event : Event) : M Flow :=
  match Object_ event with
  | OtherObject _ =>
      tell (Log "Received unexpected *v1.Pod object from Watch.") ;;
      assign_ExitCode (-1) ;;
      ret ReturnNil
  | PodObject pod =>
      let phase := Phase (Status pod) in
      if (phase =? PodSucceeded)%string || (phase =? PodFailed)%string then
        tell (Log "Pod terminated.") ;;
        scanTerminal (ContainerStatuses (Status pod)) ;;
        ret Break
      else if (phase =? PodRunning)%string then
        terminated <- scanRunning (ContainerStatuses (Status pod)) false ;;
        ret (if terminated : bool then Break else Next)
      else ret Next
  end.

(** check.go 99-132: [for event := range watchInterface.ResultChan()]
    and the [return nil] after it. *)
Fixpoint rangeResultChan (events : list Event) (closes : bool) : M Outcome :=
  match events with
  | [] => ret (if closes then Returned None else Blocked)
  | event :: rest =>
      tell (Recv event) ;;
      flow <- onEvent event ;;
      match flow with
      | Next => rangeResultChan rest closes
      | Break => ret (Returned None)
      | ReturnNil => ret (Returned None)
      end
  end.

(** check.go 89-133 *)
Definition FetchExitCode : M Outcome :=
  c <- self ;;
  match PodsWatch (ClientSet c) (viper_GetString "namespace")
                  ("metadata.name=" ++ PodName)%string with
  | inr err => ret (Returned (Some (Errorf_w "failed to watch Pods: " err)))
  | inl watchInterface =>
      tell (Log "Waiting for Pod to terminate...") ;;
      rangeResultChan (delivered watchInterface) (closes watchInterface)
  end.

(** **** PrintE2ELogs *)

(** check.go 67-80: the labelled [select] loop.  It ends with [log.Fatal],
    with [break loop], or never, when no further signal arrives. *)
Fixpoint selectLoop (signals : list Signal) : M Outcome :=
  match signals with
  | [] => ret Blocked
  | s :: rest =>
      tell (Select s) ;;
      match s with
      | errCh err => ret (Fatal err)
      | logCh logStream =>
          tell (Print logStream) ;;
          match fmt_Print logStream with
          | Some err => ret (Fatal err)
          | None => selectLoop rest
          end
      | doneCh _ => ret (Returned None)
      end
  end.

(** check.go 55-85: the polling loop.  [n] counts the lookups made so far;
    [fuel] bounds the iterations the model follows, and [None] says that the
    loop is still polling when the bound is reached.  The error of the lookup
    is discarded ([pod, _ := ...]) and [pod.Status.Phase] is read through the
    pointer whatever it is. *)
Fixpoint pollLoop (fuel : nat) (n : nat) : M (option Outcome) :=
  match fuel with
  | O => ret None
  | S fuel' =>
      c <- self ;;
      tell (Get n) ;;
      match fst (ListerGet (ClientSet c) (viper_GetString "namespace") PodName n) with
      | None =>
          ret (Some (Panicked "invalid memory address or nil pointer dereference"))
      | Some pod =>
          if (Phase (Status pod) =? PodRunning)%string then
            out <- selectLoop (PodLogs (ClientSet c)) ;;
            ret (Some out)
          else pollLoop fuel' (S n)
      end
  end.

(** check.go 43-86 *)
Definition PrintE2ELogs (fuel : nat) : M (option Outcome) :=
  c <- self ;;
  match AddEventHandler (ClientSet c) with
  | Some err =>
      ret (Some (Returned (Some (Errorf_w "failed to add event handler: " err))))
  | None => pollLoop fuel 0
  end.

(** **** Vocabulary for the properties *)

Definition isTerminated (containerStatus : ContainerStatus) : bool :=
  match Terminated (State containerStatus) with
  | Some _ => true
  | None => false
  end.

Definition isConformance (containerStatus : ContainerStatus) : bool :=
  (Name containerStatus =? ConformanceContainer)%string.

(** The exit codes a scan assigns, in order: those of the terminated
    statuses that carry the conformance container's name. *)
Fixpoint conformanceCodes (statuses : list ContainerStatus) : list Z :=
  match statuses with
  | [] => []
  | containerStatus :: rest =>
      match Terminated (State containerStatus) with
      | Some t =>
          if isConformance containerStatus
          then v1.ExitCode t :: conformanceCodes rest
          else conformanceCodes rest
      | None => conformanceCodes rest
      end
  end.

(** The conformance container of [pod] reports a terminated state with exit
    code [E]; container names are unique within the snapshot. *)
Definition reportsTerminated (pod : Pod) (E : Z) : Prop :=
  NoDup (map Name (ContainerStatuses (Status pod))) /\
  exists containerStatus t,
    In containerStatus (ContainerStatuses (Status pod)) /\
    Name containerStatus = ConformanceContainer /\
    Terminated (State containerStatus) = Some t /\
    v1.ExitCode t = E.

(** A snapshot after which the loop of [FetchExitCode] receives again: a pod
    that is neither Succeeded nor Failed and, if Running, has no terminated
    container. *)
Definition keepsObserving (event : Event) : bool :=
  match Object_ event with
  | OtherObject _ => false
  | PodObject pod =>
      let phase := Phase (Status pod) in
      negb (phase =? PodSucceeded)%string && negb (phase =? PodFailed)%string &&
      (negb (phase =? PodRunning)%string ||
       negb (existsb isTerminated (ContainerStatuses (Status pod))))
  end.

(** A snapshot that is not terminal in the sense of the specification's
    state machine: a pod that is neither Succeeded nor Failed and, if
    Running, whose conformance container has not terminated. *)
Definition nonTerminal (event : Event) : bool :=
  match Object_ event with
  | OtherObject _ => false
  | PodObject pod =>
      let phase := Phase (Status pod) in
      negb (phase =? PodSucceeded)%string && negb (phase =? PodFailed)%string &&
      (negb (phase =? PodRunning)%string ||
       negb (existsb (fun cs => isConformance cs && isTerminated cs)
               (ContainerStatuses (Status pod))))
  end.

(** The phases on which [FetchExitCode] scans the container statuses. *)
Definition scannedPhase (phase : PodPhase) : bool :=
  (phase =? PodSucceeded)%string || (phase =? PodFailed)%string ||
  (phase =? PodRunning)%string.

(** The pod pointer the n-th lookup of the polling loop yields. *)
Definition lookup (c : Client) (n : nat) : option Pod :=
  fst (ListerGet (ClientSet c) (viper_GetString "namespace") PodName n).

Definition observesRunning (c : Client) (n : nat) : bool :=
  match lookup c n with
  | Some pod => (Phase (Status pod) =? PodRunning)%string
  | None => false
  end.

Definition lookupFails (c : Client) (n : nat) : bool :=
  match lookup c n with
  | Some _ => false
  | None => true
  end.

(** The polling loop first sees the pod Running at lookup [i]: every earlier
    lookup yields a pod in another phase. *)
Definition firstRunningAt (c : Client) (i : nat) : Prop :=
  (forall j, (j < i)%nat ->
     observesRunning c j = false /\ lookupFails c j = false) /\
  observesRunning c i = true.

(** A terminated status that carries the conformance container's name. *)
Definition conformanceExit (containerStatus : ContainerStatus) (code : Z) : Prop :=
  Name containerStatus = ConformanceContainer /\
  exists t, Terminated (State containerStatus) = Some t /\ v1.ExitCode t = code.

End Check.

(** What one log line leaves in the trace when it prints. *)
Definition lineSteps (line : string) : list Effect :=
  [Select (logCh line); Print line].

(** The event with another [Type]. *)
Definition withType (type_ : string) (event : Event) : Event :=
  {| Type_ := type_; Object_ := Object_ event |}.

End client.

(** ** package types *)
Module types.

(** The fields of [Configuration] that [AddFlags] and [Complete] name. *)
Record Configuration : Type :=
  { configFile : string;
    Kubeconfig : string;
    Parallel : Z;
    Verbosity : Z;
    OutputDir : string;
    Skip : string;
    ConformanceImage : string;
    BusyboxImage : string;
    Namespace : string;
    DryRun : bool;
    TestRepoList : string;
    TestRepo : string;
    StartupTimeout : Z;
    ExtraArgs : list string;
    ExtraGinkgoArgs : list string }.

Definition set_Kubeconfig (v : string) (c : Configuration) : Configuration :=
  {| configFile := configFile c;
     Kubeconfig := v;
     Parallel := Parallel c;
     Verbosity := Verbosity c;
     OutputDir := OutputDir c;
     Skip := Skip c;
     ConformanceImage := ConformanceImage c;
     BusyboxImage := BusyboxImage c;
     Namespace := Namespace c;
     DryRun := DryRun c;
     TestRepoList := TestRepoList c;
     TestRepo := TestRepo c;
     StartupTimeout := StartupTimeout c;
     ExtraArgs := ExtraArgs c;
     ExtraGinkgoArgs := ExtraGinkgoArgs c |}.

(** [*pflag.FlagSet], as far as [Complete] asks it. *)
Record FlagSet : Type :=
  { Changed : string -> bool }.

(** A Go [comparable] type with its zero value [*new(T)]. *)
Class Comparable (T : Type) : Type :=
  { empty : T;
    equal : T -> T -> bool }.

#[export] Instance Comparable_string : Comparable string :=
  {| empty := ""; equal := String.eqb |}.
#[export] Instance Comparable_int : Comparable Z :=
  {| empty := 0; equal := Z.eqb |}.
#[export] Instance Comparable_bool : Comparable bool :=
  {| empty := false; equal := Bool.eqb |}.

(** [overwrite]: the assignment through [dst] is returned as the new value
    of the destination. *)
Definition overwrite {T} `{Comparable T}
  (fs : FlagSet) (flagName : string) (dst : T) (src : T) : T :=
  if negb (equal src empty) && (Changed fs flagName || equal dst empty)
  then src else dst.

Definition overwriteSlice {T}
  (fs : FlagSet) (flagName : string) (dst : list T) (src : list T) : list T :=
  if (0 <? length src)%nat && (Changed fs flagName || (length dst =? 0)%nat)
  then src else dst.

(** The two objects [Complete] works on.  [c] is the receiver; [loaded] is
    the configuration read from the file, when there is one.  The local
    pointer [result] is [c] until line 71 makes it [loaded]. *)
Record Store : Type :=
  { at_c : Configuration;
    at_loaded : option Configuration }.

Definition at_result (st : Store) : Configuration :=
  match at_loaded st with
  | Some loaded => loaded
  | None => at_c st
  end.

(** [result.Kubeconfig = v]: a write through [result], seen through [c] as
    well exactly when the two are the same pointer. *)
Definition assign_result_Kubeconfig (v : string) (st : Store) : Store :=
  match at_loaded st with
  | Some loaded =>
      {| at_c := at_c st; at_loaded := Some (set_Kubeconfig v loaded) |}
  | None =>
      {| at_c := set_Kubeconfig v (at_c st); at_loaded := None |}
  end.

(** [s[1:]]: a run-time panic on the empty string. *)
Definition slice_from_1 (s : string) : option string :=
  match s with
  | EmptyString => None
  | String _ rest => Some rest
  end.

(** [strings.HasPrefix(s, "~")] *)
Definition HasPrefix_tilde (s : string) : bool := String.prefix "~" s.

(** How [Complete] ends: the returned pointer (read through [at_result]) with
    the objects as they are then, an error, or a run-time panic. *)
Inductive Completed : Type :=
| Ok (st : Store)
| Err (err : error)
| Panic (msg : string).

Section Complete.

(** [loadConfiguration] and [Validate] belong to the package but not to the
    source file at hand; [Validate] is taken to inspect the configuration
    without changing it.  [os] and [path/filepath] are Go's. *)
Variable loadConfiguration : string -> Configuration + error.
Variable Validate : Configuration -> option error.
Variable os_Getenv : string -> string.
(** [os.UserHomeDir()], at its n-th call. *)
Variable os_UserHomeDir : nat -> string + error.
Variable filepath_Join : list string -> string.

(** Lines 49-72.  The value is the store after the merge. *)
Definition mergeFile (c : Configuration) (fs : FlagSet) : Store + error :=
  if (configFile c =? "")%string then
    inl {| at_c := c; at_loaded := None |}
  else
    match loadConfiguration (configFile c) with
    | inr err => inr err
    | inl loaded =>
        inl {| at_c := c;
               at_loaded := Some
                 {| configFile := configFile loaded;
                    Kubeconfig := overwrite fs "kubeconfig" (Kubeconfig loaded) (Kubeconfig c);
                    Parallel := overwrite fs "parallel" (Parallel loaded) (Parallel c);
                    Verbosity := overwrite fs "verbosity" (Verbosity loaded) (Verbosity c);
                    OutputDir := overwrite fs "output-dir" (OutputDir loaded) (OutputDir c);
                    Skip := overwrite fs "skip" (Skip loaded) (Skip c);
                    ConformanceImage :=
                      overwrite fs "conformance-image" (ConformanceImage loaded) (ConformanceImage c);
                    BusyboxImage := overwrite fs "busybox-image" (BusyboxImage loaded) (BusyboxImage c);
                    Namespace := overwrite fs "namespace" (Namespace loaded) (Namespace c);
                    DryRun := overwrite fs "dry-run" (DryRun loaded) (DryRun c);
                    TestRepoList := overwrite fs "test-repo-list" (TestRepoList loaded) (TestRepoList c);
                    TestRepo := overwrite fs "test-repo" (TestRepo loaded) (TestRepo c);
                    StartupTimeout :=
                      overwrite fs "startup-timeout" (StartupTimeout loaded) (StartupTimeout c);
                    ExtraArgs := overwriteSlice fs "extra-args" (ExtraArgs loaded) (ExtraArgs c);
                    ExtraGinkgoArgs :=
                      overwriteSlice fs "extra-ginkgo-args" (ExtraGinkgoArgs loaded) (ExtraGinkgoArgs c)
                 |} |}
    end.

(** Lines 74-87.  [calls] counts the calls of [os.UserHomeDir] made so far. *)
Definition defaultKubeconfig (st : Store) (calls : nat) : (Store + error) * nat :=
  if (Kubeconfig (at_result st) =? "")%string then
    let envvar := os_Getenv "KUBECONFIG" in
    if negb (envvar =? "")%string then
      (inl (assign_result_Kubeconfig envvar st), calls)
    else
      match os_UserHomeDir calls with
      | inr err =>
          (inr (Errorf_w "failed to determine home directory: " err), S calls)
      | inl homeDir =>
          (inl (assign_result_Kubeconfig
                  (filepath_Join [homeDir; ".kube"; "config"]) st), S calls)
      end
  else (inl st, calls).

(** Lines 89-97.  The path joined to the home directory is read from
    [c.Kubeconfig], not from [result.Kubeconfig]. *)
Definition expandTilde (st : Store) (calls : nat) : Completed * nat :=
  if HasPrefix_tilde (Kubeconfig (at_result st)) then
    match os_UserHomeDir calls with
    | inr err =>
        (Err (Errorf_w "failed to determine home directory: " err), S calls)
    | inl homeDir =>
        match slice_from_1 (Kubeconfig (at_c st)) with
        | None => (Panic "slice bounds out of range [1:0]", S calls)
        | Some tail =>
            (Ok (assign_result_Kubeconfig (filepath_Join [homeDir; tail]) st),
             S calls)
        end
    end
  else (Ok st, calls).

(** Lines 46-104.  The second component is the number of calls of
    [os.UserHomeDir]. *)
Definition Complete (c : Configuration) (fs : FlagSet) : Completed * nat :=
  match mergeFile c fs with
  | inr err => (Err err, O)
  | inl st =>
      match defaultKubeconfig st O with
      | (inr err, calls) => (Err err, calls)
      | (inl st1, calls) =>
          match expandTilde st1 calls with
          | (Ok st2, calls') =>
              match Validate (at_result st2) with
              | Some err => (Err (Errorf_w "invalid configuration: " err), calls')
              | None => (Ok st2, calls')
              end
          | other => other
          end
      end
  end.

(** What [os.UserHomeDir] and [filepath.Join] guarantee: a home directory
    that is found is not the empty string, and a path joined to a non-empty
    first element is not empty. *)
Definition homeDirNonEmpty : Prop :=
  forall n homeDir, os_UserHomeDir n = inl homeDir -> homeDir <> "".

Definition joinNonEmpty : Prop :=
  forall homeDir rest, homeDir <> "" -> filepath_Join (homeDir :: rest) <> "".

End Complete.

(** [strings.ReplaceAll(s, old, new)] for a one-byte [old]: every
    occurrence of the byte is replaced, left to right. *)
Fixpoint ReplaceAll (s : string) (old : ascii) (new : string) : string :=
  match s with
  | EmptyString => EmptyString
  | String a rest =>
      if Ascii.eqb a old
      then (new ++ ReplaceAll rest old new)%string
      else String a (ReplaceAll rest old new)
  end.

Section Resolve.

Variable os_Getenv : string -> string.
Variable os_UserHomeDir : nat -> string + error.
Variable filepath_Join : list string -> string.

(** Lines 120-133 of [resolveKubeconfig]: the path before a leading tilde is
    expanded, or the error, and the calls of [os.UserHomeDir] so far. *)
Definition resolveDefault (kubeconfig : string) : (string + error) * nat :=
  if (kubeconfig =? "")%string then
    let envvar := os_Getenv "KUBECONFIG" in
    if negb (envvar =? "")%string then (inl envvar, O)
    else
      match os_UserHomeDir O with
      | inr err =>
          (inr (Errorf_w "failed to determine home directory: " err), 1%nat)
      | inl homeDir =>
          (inl (filepath_Join [homeDir; ".kube"; "config"]), 1%nat)
      end
  else (inl kubeconfig, O).

(** Lines 119-146.  The value is Go's pair of a string and an error,
    together with the number of calls of [os.UserHomeDir]. *)
Definition resolveKubeconfig (kubeconfig : string) : (string * option error) * nat :=
  match resolveDefault kubeconfig with
  | (inr err, calls) => (("", Some err), calls)
  | (inl path, calls) =>
      if HasPrefix_tilde path then
        match os_UserHomeDir calls with
        | inr err =>
            (("", Some (Errorf_w "failed to determine home directory: " err)),
             S calls)
        | inl homeDir => ((ReplaceAll path "~" homeDir, None), S calls)
        end
      else ((path, None), calls)
  end.

(** What the home directory has to be for an expanded path to be final: not
    empty and not itself beginning with a tilde. *)
Definition plainHome : Prop :=
  forall n homeDir,
    os_UserHomeDir n = inl homeDir ->
    homeDir <> "" /\ HasPrefix_tilde homeDir = false.

End Resolve.

(** One registration on the flag set: the field the flag is bound to (the
    pointer argument), its name, its default value and its usage text. *)
Inductive Flag : Type :=
| StringVar (p : Configuration -> string) (name value usage : string)
| IntVar (p : Configuration -> Z) (name : string) (value : Z) (usage : string)
| BoolVar (p : Configuration -> bool) (name : string) (value : bool) (usage : string)
| DurationVar (p : Configuration -> Z) (name : string) (value : Z) (usage : string)
| StringSliceVar (p : Configuration -> list string) (name : string)
    (value : list string) (usage : string).

Definition flagName (flag : Flag) : string :=
  match flag with
  | StringVar _ name _ _ => name
  | IntVar _ name _ _ => name
  | BoolVar _ name _ _ => name
  | DurationVar _ name _ _ => name
  | StringSliceVar _ name _ _ => name
  end.

(** Lines 28-44: the registrations [AddFlags] makes, in order. *)
Definition AddFlags (c : Configuration) : list Flag :=
  [ StringVar configFile "config" "" "path to an optional base configuration file.";
    StringVar Kubeconfig "kubeconfig" (Kubeconfig c) "path to the kubeconfig file.";
    IntVar Parallel "parallel" (Parallel c)
      "number of parallel threads in test framework (automatically sets the --nodes Ginkgo flag).";
    IntVar Verbosity "verbosity" (Verbosity c)
      "verbosity of test framework (values >= 6 automatically sets the -v Ginkgo flag).";
    StringVar OutputDir "output-dir" (OutputDir c) "directory for logs.";
    StringVar Skip "skip" (Skip c) "skip specific tests. allows regular expressions.";
    StringVar ConformanceImage "conformance-image" (ConformanceImage c)
      "specify a conformance container image of your choice.";
    StringVar BusyboxImage "busybox-image" (BusyboxImage c)
      "specify an alternate busybox container image.";
    StringVar Namespace "namespace" (Namespace c)
      "the namespace where the conformance pod is created.";
    BoolVar DryRun "dry-run" (DryRun c) "run in dry run mode.";
    StringVar TestRepoList "test-repo-list" (TestRepoList c)
      "yaml file to override registries for test images.";
    StringVar TestRepo "test-repo" (TestRepo c)
      "skip specific tests. allows regular expressions.";
    DurationVar StartupTimeout "startup-timeout" (StartupTimeout c)
      "max time to wait for the conformance test pod to start up.";
    StringSliceVar ExtraArgs "extra-args" (ExtraArgs c)
      "Additional parameters to be provided to the conformance container. These parameters should be specified as key-value pairs, separated by commas. Each parameter should start with -- (e.g., --clean-start=true,--allowed-not-ready-nodes=2)";
    StringSliceVar ExtraGinkgoArgs "extra-ginkgo-args" (ExtraGinkgoArgs c)
      "Additional parameters to be provided to Ginkgo runner. This flag has the same format as --extra-args." ].

(** A statement about the field a flag is bound to, whatever its type;
    [isZero] tells the zero value of the type (the empty slice for a slice). *)
Definition aboutField (flag : Flag)
  (P : forall T : Type, (T -> bool) -> (Configuration -> T) -> Prop) : Prop :=
  match flag with
  | StringVar p _ _ _ => P string (fun v => (v =? "")%string) p
  | IntVar p _ _ _ => P Z (fun v => v =? 0) p
  | BoolVar p _ _ _ => P bool negb p
  | DurationVar p _ _ _ => P Z (fun v => v =? 0) p
  | StringSliceVar p _ _ _ => P (list string) (fun v => (length v =? 0)%nat) p
  end.

(** Two stores of which the second results from the first by writes through
    [result] to the Kubeconfig alone. *)
Definition differsInKubeconfig (before after : Store) : Prop :=
  match at_loaded before with
  | None =>
      at_loaded after = None /\
      exists k, at_c after = set_Kubeconfig k (at_c before)
  | Some merged =>
      at_c after = at_c before /\
      exists k, at_loaded after = Some (set_Kubeconfig k merged)
  end.

(** The flag set in which exactly the flags of [names] have been set. *)
Definition changedFlags (names : list string) : FlagSet :=
  {| Changed := fun name => existsb (String.eqb name) names |}.

End types.

(** ** Concrete clusters, used to run the functions *)
Module example.
Import v1 watch client.

(** The values hydrophone gives to the names of the pod and its containers. *)
Definition PodName : string := "e2e-conformance-test".
Definition ConformanceContainer : string := "conformance-container".
Definition OutputContainer : string := "output-container".

Definition viper_GetString (key : string) : string :=
  if (key =? "namespace")%string then "conformance" else "".

Definition fmt_Print (text : string) : option error := None.

Definition active (name : string) : ContainerStatus :=
  {| Name := name; State := {| Terminated := None |} |}.

Definition exited (name : string) (code : Z) : ContainerStatus :=
  {| Name := name; State := {| Terminated := Some {| v1.ExitCode := code |} |} |}.

Definition podWith (phase : PodPhase) (statuses : list ContainerStatus) : Pod :=
  {| Status := {| Phase := phase; ContainerStatuses := statuses |} |}.

Definition snapshot (phase : PodPhase) (statuses : list ContainerStatus) : Event :=
  {| Type_ := "MODIFIED"; Object_ := PodObject (podWith phase statuses) |}.

(** The event of a failed watch: its object is a status, not a pod. *)
Definition watchError : Event :=
  {| Type_ := "ERROR"; Object_ := OtherObject "*v1.Status" |}.

(** A cluster whose watch is established and delivers [events]. *)
Definition watching (events : list Event) (closes : bool) : Clientset :=
  {| PodsWatch := fun _ _ => inl {| delivered := events; closes := closes |};
     AddEventHandler := None;
     ListerGet := fun _ _ _ => (None, Some "pod not found");
     PodLogs := [] |}.

(** A cluster that refuses the watch. *)
Definition unreachable : Clientset :=
  {| PodsWatch := fun _ _ => inr "connection refused";
     AddEventHandler := None;
     ListerGet := fun _ _ _ => (None, Some "pod not found");
     PodLogs := [] |}.

(** A cluster whose lister answers with [lookups] and whose log stream
    sends [signals]. *)
Definition polling (lookups : nat -> option Pod * option error)
  (signals : list Signal) : Clientset :=
  {| PodsWatch := fun _ _ => inr "connection refused";
     AddEventHandler := None;
     ListerGet := fun _ _ n => lookups n;
     PodLogs := signals |}.

(** A fresh client: [ExitCode] holds Go's zero value. *)
Definition newClient (cs : Clientset) : Client :=
  {| ClientSet := cs; client.ExitCode := 0 |}.

(** The output container exits first, the conformance container later. *)
Definition sidecarFirst : list Event :=
  [ snapshot PodRunning [exited OutputContainer 0; active ConformanceContainer];
    snapshot PodRunning [exited OutputContainer 0; exited ConformanceContainer 2] ].

(** The conformance container exits while the pod is still Pending. *)
Definition exitedWhilePending : list Event :=
  [ snapshot PodPending [active OutputContainer; exited ConformanceContainer 2] ].

(** The scenarios of the specification. *)
Definition pendingRunningExited : list Event :=
  [ snapshot PodPending [];
    snapshot PodRunning [active ConformanceContainer; active OutputContainer];
    snapshot PodRunning [exited ConformanceContainer 0; active OutputContainer];
    snapshot PodSucceeded [exited ConformanceContainer 0; exited OutputContainer 0] ].

Definition pendingFailed : list Event :=
  [ snapshot PodPending [];
    snapshot PodFailed [exited ConformanceContainer 2; exited OutputContainer 0] ].

(** The lister finds the pod Pending twice and Running from then on. *)
Definition startsAfterTwoPolls (n : nat) : option Pod * option error :=
  if (n <? 2)%nat
  then (Some (podWith PodPending []), None)
  else (Some (podWith PodRunning [active ConformanceContainer]), None).

(** The pod never leaves Pending. *)
Definition stuckPending (n : nat) : option Pod * option error :=
  (Some (podWith PodPending []), None).

(** The lister's cache does not hold the pod. *)
Definition podNotFound (n : nat) : option Pod * option error :=
  (None, Some "pod e2e-conformance-test not found").

(** The pod is evicted: it fails without any container status. *)
Definition evicted : list Event :=
  [ snapshot PodPending []; snapshot PodFailed [] ].

(** Standard output that refuses the text [bad]. *)
Definition printFailsOn (bad : string) (text : string) : option error :=
  if (text =? bad)%string then Some "write /dev/stdout: broken pipe" else None.

(** The functions of check.go with hydrophone's names. *)
Definition FetchExitCode : M Outcome :=
  client.FetchExitCode PodName ConformanceContainer viper_GetString.

Definition PrintE2ELogs (fuel : nat) : M (option Outcome) :=
  client.PrintE2ELogs PodName viper_GetString fmt_Print fuel.

Definition pollLoop (fuel : nat) (n : nat) : M (option Outcome) :=
  client.pollLoop PodName viper_GetString fmt_Print fuel n.

End example.

(** ** Concrete environments for [Complete] *)
Module example_config.
Import types.

(** A configuration without configuration file and without kubeconfig. *)
Definition defaults : Configuration :=
  {| configFile := "";
     Kubeconfig := "";
     Parallel := 1;
     Verbosity := 4;
     OutputDir := ".";
     Skip := "";
     ConformanceImage := "";
     BusyboxImage := "busybox";
     Namespace := "conformance";
     DryRun := false;
     TestRepoList := "";
     TestRepo := "";
     StartupTimeout := 300000000000;
     ExtraArgs := [];
     ExtraGinkgoArgs := [] |}.

Definition noFlags : FlagSet := {| Changed := fun _ => false |}.

(** The defaults with [--config path]. *)
Definition withConfigFile (path : string) : Configuration :=
  {| configFile := path;
     Kubeconfig := Kubeconfig defaults;
     Parallel := Parallel defaults;
     Verbosity := Verbosity defaults;
     OutputDir := OutputDir defaults;
     Skip := Skip defaults;
     ConformanceImage := ConformanceImage defaults;
     BusyboxImage := BusyboxImage defaults;
     Namespace := Namespace defaults;
     DryRun := DryRun defaults;
     TestRepoList := TestRepoList defaults;
     TestRepo := TestRepo defaults;
     StartupTimeout := StartupTimeout defaults;
     ExtraArgs := ExtraArgs defaults;
     ExtraGinkgoArgs := ExtraGinkgoArgs defaults |}.

Definition noConfigFile (path : string) : Configuration + error :=
  inr "open: no such file or directory".

(** A configuration file that only sets [kubeconfig: ~/.kube/config]. *)
Definition tildeConfigFile (path : string) : Configuration + error :=
  inl (set_Kubeconfig "~/.kube/config" defaults).

Definition valid (c : Configuration) : option error := None.

Definition emptyEnvironment (key : string) : string := "".

Definition noHome (n : nat) : string + error := inr "$HOME is not defined".

Definition homeOfUser (n : nat) : string + error := inl "/home/user".

(** Path elements put together with the separator; the lexical cleaning of
    [filepath.Join] changes none of the paths used below. *)
Definition joinWithSlash (elem : list string) : string := String.concat "/" elem.

(** A configuration file that sets every field. *)
Definition fromFile : Configuration :=
  {| configFile := "";
     Kubeconfig := "/etc/file/config";
     Parallel := 2;
     Verbosity := 5;
     OutputDir := "/file/out";
     Skip := "file-skip";
     ConformanceImage := "file/conformance";
     BusyboxImage := "file/busybox";
     Namespace := "file-ns";
     DryRun := true;
     TestRepoList := "file-repos.yaml";
     TestRepo := "file.registry";
     StartupTimeout := 60;
     ExtraArgs := ["--file=1"];
     ExtraGinkgoArgs := ["--file-ginkgo=1"] |}.

(** A receiver in which every field differs from the file's. *)
Definition fromFlags : Configuration :=
  {| configFile := "hydrophone.yaml";
     Kubeconfig := "/flag/config";
     Parallel := 8;
     Verbosity := 9;
     OutputDir := "/flag/out";
     Skip := "flag-skip";
     ConformanceImage := "flag/conformance";
     BusyboxImage := "flag/busybox";
     Namespace := "flag-ns";
     DryRun := true;
     TestRepoList := "flag-repos.yaml";
     TestRepo := "flag.registry";
     StartupTimeout := 120;
     ExtraArgs := ["--flag=1"];
     ExtraGinkgoArgs := ["--flag-ginkgo=1"] |}.

Definition loadsFromFile (path : string) : Configuration + error := inl fromFile.

(** KUBECONFIG holds a path below the home directory, or a plain path. *)
Definition tildeEnvironment (key : string) : string :=
  if (key =? "KUBECONFIG")%string then "~/clusters/~test" else "".

Definition plainEnvironment (key : string) : string :=
  if (key =? "KUBECONFIG")%string then "/etc/kubernetes/admin.conf" else "".

Definition invalid (c : Configuration) : option error :=
  Some "parallel must be at least 1".

End example_config.

(** * Properties of [FetchExitCode] *)

(** Unfolds the monad's operations, one sequencing step at a time. *)
Ltac run_step :=
  unfold client.bind, client.ret, client.tell, client.assign_ExitCode,
    client.self; cbn [fst snd].

Section FetchExitCodeFacts.
Import v1 watch client.
Local Open Scope go_scope.

Variable PodName : string.
Variable ConformanceContainer : string.
Variable viper_GetString : string -> string.

Local Abbreviation scanTerminal := (client.scanTerminal ConformanceContainer).
Local Abbreviation scanRunning := (client.scanRunning ConformanceContainer).
Local Abbreviation onEvent := (client.onEvent ConformanceContainer).
Local Abbreviation rangeResultChan := (client.rangeResultChan ConformanceContainer).
Local Abbreviation FetchExitCode :=
  (client.FetchExitCode PodName ConformanceContainer viper_GetString).
Local Abbreviation isConformance := (client.isConformance ConformanceContainer).
Local Abbreviation conformanceCodes := (client.conformanceCodes ConformanceContainer).
Local Abbreviation reportsTerminated := (client.reportsTerminated ConformanceContainer).
Local Abbreviation keepsObserving := client.keepsObserving.

Lemma stores_app (t1 t2 : list Effect) :
  stores (t1 ++ t2) = stores t1 ++ stores t2.
Proof.
  induction t1 as [|e t1 IH]; [reflexivity|].
  destruct e; simpl; now rewrite IH.
Qed.

Lemma received_app (t1 t2 : list Effect) :
  received (t1 ++ t2) = received t1 ++ received t2.
Proof.
  induction t1 as [|e t1 IH]; [reflexivity|].
  destruct e; simpl; now rewrite IH.
Qed.

Lemma received_map_Recv (events : list Event) :
  received (map Recv events) = events.
Proof. induction events; simpl; congruence. Qed.

Lemma stores_map_Recv (events : list Event) :
  stores (map Recv events) = [].
Proof. induction events; simpl; congruence. Qed.

Lemma last_cons_any_default (z : Z) (codes : list Z) (d1 d2 : Z) :
  last (z :: codes) d1 = last (z :: codes) d2.
Proof.
  revert z; induction codes as [|z' codes IH]; intros z; [reflexivity|].
  change (last (z' :: codes) d1 = last (z' :: codes) d2). apply IH.
Qed.

(** The last assignment wins, whatever the field held before. *)
Lemma last_after_assignment (code : Z) (codes : list Z) (before : Client) :
  last codes (ExitCode (set_ExitCode code before)) =
  last (code :: codes) (ExitCode before).
Proof.
  cbn [set_ExitCode ExitCode].
  destruct codes as [|z codes]; [reflexivity|].
  change (last (code :: z :: codes) (ExitCode before))
    with (last (z :: codes) (ExitCode before)).
  apply last_cons_any_default.
Qed.

(** What the scan of a Running pod does: it reports whether any container
    has terminated, and assigns the exit codes of [conformanceCodes]. *)
Lemma scanRunning_spec (statuses : list ContainerStatus) :
  forall (terminated : bool) (c : Client),
    let r := scanRunning statuses terminated c in
    result r = terminated || existsb isTerminated statuses /\
    stores (trace r) = conformanceCodes statuses /\
    received (trace r) = [] /\
    ExitCode (receiver r) = last (conformanceCodes statuses) (ExitCode c) /\
    ClientSet (receiver r) = ClientSet c.
Proof.
  induction statuses as [|cs rest IH]; intros terminated c; cbn zeta.
  - cbn. rewrite orb_false_r. repeat split; reflexivity.
  - cbn [client.scanRunning client.conformanceCodes existsb].
    unfold isTerminated at 1, client.isConformance.
    destruct (Terminated (State cs)) as [t|].
    + destruct (Name cs =? ConformanceContainer)%string; run_step.
      * specialize (IH true (set_ExitCode (v1.ExitCode t) c)).
        destruct (scanRunning rest true _) as [[b c2] t2].
        unfold result, receiver, trace in *; cbn [fst snd] in *.
        destruct IH as (Hb & Hs & Hr & He & Hc).
        rewrite orb_true_r. repeat split; cbn; auto.
        -- now rewrite Hs.
        -- rewrite He. apply last_after_assignment.
      * specialize (IH true c).
        destruct (scanRunning rest true _) as [[b c2] t2].
        unfold result, receiver, trace in *; cbn [fst snd] in *.
        destruct IH as (Hb & Hs & Hr & He & Hc).
        rewrite orb_true_r. repeat split; cbn; auto.
    + cbn [orb]. apply IH.
Qed.

(** The scan of a Succeeded or Failed pod assigns the same exit codes. *)
Lemma scanTerminal_spec (statuses : list ContainerStatus) :
  forall (c : Client),
    let r := scanTerminal statuses c in
    stores (trace r) = conformanceCodes statuses /\
    received (trace r) = [] /\
    ExitCode (receiver r) = last (conformanceCodes statuses) (ExitCode c) /\
    ClientSet (receiver r) = ClientSet c.
Proof.
  induction statuses as [|cs rest IH]; intros c; cbn zeta.
  - cbn. repeat split; reflexivity.
  - cbn [client.scanTerminal client.conformanceCodes].
    unfold client.isConformance.
    destruct (Name cs =? ConformanceContainer)%string;
      destruct (Terminated (State cs)) as [t|]; run_step;
      try (specialize (IH c); destruct (scanTerminal rest c) as [[u c2] t2];
           exact IH).
    specialize (IH (set_ExitCode (v1.ExitCode t) c)).
    destruct (scanTerminal rest _) as [[u c2] t2].
    unfold result, receiver, trace in *; cbn [fst snd] in *.
    destruct IH as (Hs & Hr & He & Hc).
    repeat split; cbn; auto.
    + now rewrite Hs.
    + rewrite He. apply last_after_assignment.
Qed.

Lemma scanRunning_none_terminated (statuses : list ContainerStatus) :
  forall (terminated : bool) (c : Client),
    existsb isTerminated statuses = false ->
    scanRunning statuses terminated c = (terminated, c, []).
Proof.
  induction statuses as [|cs rest IH]; intros terminated c H; [reflexivity|].
  cbn [existsb] in H. apply orb_false_elim in H as [Hcs Hrest].
  cbn [client.scanRunning]. unfold isTerminated in Hcs.
  destruct (Terminated (State cs)); [discriminate|]. now apply IH.
Qed.

Lemma conformanceCodes_nil (statuses : list ContainerStatus) :
  forallb (fun cs => negb (isConformance cs && isTerminated cs)) statuses = true ->
  conformanceCodes statuses = [].
Proof.
  induction statuses as [|cs rest IH]; [reflexivity|].
  cbn [forallb client.conformanceCodes]. intros H.
  apply andb_true_iff in H as [Hcs Hrest]. unfold isTerminated in Hcs.
  destruct (Terminated (State cs)); [|now apply IH].
  destruct (isConformance cs); [discriminate|now apply IH].
Qed.

Lemma conformanceCodes_other_names (statuses : list ContainerStatus) :
  ~ In ConformanceContainer (map Name statuses) ->
  conformanceCodes statuses = [].
Proof.
  induction statuses as [|cs rest IH]; [reflexivity|].
  cbn [map In client.conformanceCodes]. intros H.
  unfold client.isConformance.
  destruct (String.eqb_spec (Name cs) ConformanceContainer) as [Heq|Hne].
  - exfalso. apply H. now left.
  - destruct (Terminated (State cs)); apply IH; intros Hin; apply H; now right.
Qed.

(** With unique container names, the conformance container's terminated
    status is the only one a scan takes an exit code from. *)
Lemma conformanceCodes_unique (pod : Pod) (E : Z) :
  reportsTerminated pod E ->
  conformanceCodes (ContainerStatuses (Status pod)) = [E].
Proof.
  intros [Hnodup (cs & t & Hin & Hname & Hterm & Hcode)].
  induction (ContainerStatuses (Status pod)) as [|x rest IH]; [contradiction|].
  cbn [map] in Hnodup. apply NoDup_cons_iff in Hnodup as [Hnotin Hrest].
  cbn [client.conformanceCodes]. unfold client.isConformance.
  destruct Hin as [Hx|Hin].
  - rewrite Hx, Hterm, Hname, String.eqb_refl, Hcode.
    rewrite conformanceCodes_other_names; [reflexivity|].
    now rewrite <- Hname, <- Hx.
  - assert (Hx : Name x <> ConformanceContainer).
    { intros Heq. apply Hnotin. rewrite Heq, <- Hname. now apply in_map. }
    destruct (String.eqb_spec (Name x) ConformanceContainer) as [Heq|_];
      [contradiction|].
    destruct (Terminated (State x)); now apply IH.
Qed.

(** An event that keeps the loop observing leaves no mark. *)
Lemma onEvent_keepsObserving (event : Event) (c : Client) :
  keepsObserving event = true ->
  onEvent event c = (Next, c, []).
Proof.
  unfold keepsObserving, client.onEvent.
  destruct (Object_ event) as [pod|kind]; [|discriminate].
  cbn zeta. intros H.
  apply andb_true_iff in H as [H Hrun]. apply andb_true_iff in H as [Hs Hf].
  apply negb_true_iff in Hs, Hf. rewrite Hs, Hf. cbn [orb].
  destruct (Phase (Status pod) =? PodRunning)%string; [|reflexivity].
  cbn [negb orb] in Hrun. apply negb_true_iff in Hrun.
  run_step. now rewrite scanRunning_none_terminated.
Qed.

(** A pod in a scanned phase, with a terminated container when it is Running,
    ends the loop after its exit codes have been assigned. *)
Lemma onEvent_stops (event : Event) (pod : Pod) (c : Client) :
  Object_ event = PodObject pod ->
  scannedPhase (Phase (Status pod)) = true ->
  ((Phase (Status pod) =? PodRunning)%string = true ->
   existsb isTerminated (ContainerStatuses (Status pod)) = true) ->
  let r := onEvent event c in
  result r = Break /\
  stores (trace r) = conformanceCodes (ContainerStatuses (Status pod)) /\
  received (trace r) = [] /\
  ExitCode (receiver r) =
    last (conformanceCodes (ContainerStatuses (Status pod))) (ExitCode c).
Proof.
  intros Hobj Hphase Hrun. unfold client.onEvent. rewrite Hobj. cbn zeta.
  unfold scannedPhase in Hphase.
  destruct ((Phase (Status pod) =? PodSucceeded)%string
            || (Phase (Status pod) =? PodFailed)%string).
  - pose proof (scanTerminal_spec (ContainerStatuses (Status pod)) c) as H.
    cbn zeta in H. run_step.
    destruct (scanTerminal _ c) as [[u c2] t2].
    unfold result, receiver, trace in *; cbn [fst snd] in *.
    destruct H as (Hs & Hr & He & _).
    rewrite app_nil_r. repeat split; auto.
  - cbn [orb] in Hphase. rewrite Hphase. specialize (Hrun Hphase).
    pose proof (scanRunning_spec (ContainerStatuses (Status pod)) false c) as H.
    cbn zeta in H. run_step.
    destruct (scanRunning _ false c) as [[b c2] t2].
    unfold result, receiver, trace in *; cbn [fst snd] in *.
    destruct H as (Hb & Hs & Hr & He & _).
    rewrite Hrun in Hb. cbn in Hb. subst b.
    rewrite app_nil_r. repeat split; auto.
Qed.

(** The loop passes over a prefix of events that keep it observing. *)
Lemma rangeResultChan_skip (pre rest : list Event) (closes : bool) (c : Client) :
  forallb keepsObserving pre = true ->
  rangeResultChan (pre ++ rest) closes c =
  (result (rangeResultChan rest closes c),
   receiver (rangeResultChan rest closes c),
   map Recv pre ++ trace (rangeResultChan rest closes c)).
Proof.
  induction pre as [|event pre IH]; intros H.
  - cbn. now destruct (rangeResultChan rest closes c) as [[o c'] t].
  - cbn [forallb] in H. apply andb_true_iff in H as [Hev Hpre].
    cbn [app client.rangeResultChan map]. run_step.
    rewrite (onEvent_keepsObserving _ _ Hev). rewrite (IH Hpre).
    reflexivity.
Qed.

(** The loop ends at the first event that does not send it on. *)
Lemma rangeResultChan_stop (event : Event) (rest : list Event)
  (closes : bool) (c : Client) :
  result (onEvent event c) <> Next ->
  rangeResultChan (event :: rest) closes c =
  (Returned None, receiver (onEvent event c),
   Recv event :: trace (onEvent event c)).
Proof.
  intros H. cbn [client.rangeResultChan]. run_step.
  destruct (onEvent event c) as [[flow c1] t1].
  unfold result, receiver, trace in *; cbn [fst snd] in *.
  destruct flow; [contradiction| |]; now rewrite app_nil_r.
Qed.

(** [FetchExitCode] once the watch is established. *)
Lemma FetchExitCode_watching (c : Client) (w : watch.Interface) :
  PodsWatch (ClientSet c) (viper_GetString "namespace")
    ("metadata.name=" ++ PodName)%string = inl w ->
  FetchExitCode c =
  (result (rangeResultChan (delivered w) (closes w) c),
   receiver (rangeResultChan (delivered w) (closes w) c),
   Log "Waiting for Pod to terminate..."
     :: trace (rangeResultChan (delivered w) (closes w) c)).
Proof.
  intros Hw. unfold client.FetchExitCode. run_step. rewrite Hw. run_step.
  now destruct (rangeResultChan _ _ c) as [[o c'] t].
Qed.

(** The run of [FetchExitCode] over quiet events followed by a pod that
    stops the loop. *)
Lemma FetchExitCode_stops_at (c : Client) (w : watch.Interface)
  (pre post : list Event) (event : Event) (pod : Pod) :
  PodsWatch (ClientSet c) (viper_GetString "namespace")
    ("metadata.name=" ++ PodName)%string = inl w ->
  delivered w = pre ++ event :: post ->
  forallb keepsObserving pre = true ->
  Object_ event = PodObject pod ->
  scannedPhase (Phase (Status pod)) = true ->
  ((Phase (Status pod) =? PodRunning)%string = true ->
   existsb isTerminated (ContainerStatuses (Status pod)) = true) ->
  let r := FetchExitCode c in
  result r = Returned None /\
  stores (trace r) = conformanceCodes (ContainerStatuses (Status pod)) /\
  received (trace r) = pre ++ [event] /\
  ExitCode (receiver r) =
    last (conformanceCodes (ContainerStatuses (Status pod))) (ExitCode c).
Proof.
  intros Hw Hdel Hpre Hobj Hphase Hrun. cbn zeta.
  rewrite (FetchExitCode_watching _ _ Hw), Hdel.
  rewrite (rangeResultChan_skip _ _ _ _ Hpre).
  pose proof (onEvent_stops event pod c Hobj Hphase Hrun) as H. cbn zeta in H.
  destruct H as (Hb & Hs & Hr & He).
  rewrite rangeResultChan_stop by (rewrite Hb; discriminate).
  unfold result, receiver, trace in *; cbn [fst snd] in *.
  repeat split; auto.
  - cbn [stores]. rewrite stores_app, stores_map_Recv. cbn. exact Hs.
  - cbn [received]. rewrite received_app, received_map_Recv. cbn.
    now rewrite Hr.
Qed.

Lemma onEvent_not_keepsObserving (event : Event) (c : Client) :
  keepsObserving event = false ->
  result (onEvent event c) <> Next.
Proof.
  unfold keepsObserving. intros H.
  destruct (Object_ event) as [pod|kind] eqn:Hobj.
  - cbn zeta in H.
    assert (Hphase : scannedPhase (Phase (Status pod)) = true /\
              ((Phase (Status pod) =? PodRunning)%string = true ->
               existsb isTerminated (ContainerStatuses (Status pod)) = true)).
    { unfold scannedPhase.
      destruct (String.eqb_spec (Phase (Status pod)) PodSucceeded) as [->|_];
        [split; [reflexivity|discriminate]|].
      destruct (String.eqb_spec (Phase (Status pod)) PodFailed) as [->|_];
        [split; [reflexivity|discriminate]|].
      destruct (Phase (Status pod) =? PodRunning)%string; [|discriminate].
      cbn in H. apply negb_false_iff in H. now split. }
    destruct Hphase as [Hphase Hrun].
    destruct (onEvent_stops event pod c Hobj Hphase Hrun) as [Hb _].
    rewrite Hb. discriminate.
  - unfold client.onEvent. rewrite Hobj. cbn. discriminate.
Qed.

(** The loop returns nil, unless the channel stays open after events that
    all keep it observing. *)
Lemma rangeResultChan_outcome (events : list Event) (closes : bool) (c : Client) :
  result (rangeResultChan events closes c) = Returned None \/
  (result (rangeResultChan events closes c) = Blocked /\
   closes = false /\ forallb keepsObserving events = true).
Proof.
  induction events as [|event rest IH].
  - destruct closes; cbn; auto.
  - destruct (keepsObserving event) eqn:Hev.
    + change (event :: rest) with ([event] ++ rest) at 1 2.
      rewrite (rangeResultChan_skip [event] rest closes c)
        by (cbn; now rewrite Hev).
      unfold result at 1 3; cbn [fst]. cbn [forallb]. rewrite Hev.
      exact IH.
    + left. rewrite rangeResultChan_stop; [reflexivity|].
      now apply onEvent_not_keepsObserving.
Qed.

(** Events that all keep the loop observing leave the client as it was. *)
Lemma rangeResultChan_exhausted (events : list Event) (closes : bool) (c : Client) :
  forallb keepsObserving events = true ->
  rangeResultChan events closes c =
  (if closes then Returned None else Blocked, c, map Recv events).
Proof.
  intros H. rewrite <- (app_nil_r events) at 1.
  rewrite (rangeResultChan_skip _ _ _ _ H). cbn. now rewrite app_nil_r.
Qed.

Lemma reportsTerminated_some_terminated (pod : Pod) (E : Z) :
  reportsTerminated pod E ->
  existsb isTerminated (ContainerStatuses (Status pod)) = true.
Proof.
  intros [_ (cs & t & Hin & _ & Hterm & _)].
  apply existsb_exists. exists cs. split; [exact Hin|].
  unfold isTerminated. now rewrite Hterm.
Qed.

(** When every delivered event keeps the loop observing and the channel is
    then closed, [FetchExitCode] returns nil and the client is as before. *)
Lemma FetchExitCode_stream_exhausted (c : Client) (w : watch.Interface) :
  PodsWatch (ClientSet c) (viper_GetString "namespace")
    ("metadata.name=" ++ PodName)%string = inl w ->
  forallb keepsObserving (delivered w) = true ->
  closes w = true ->
  FetchExitCode c =
  (Returned None, c,
   Log "Waiting for Pod to terminate..." :: map Recv (delivered w)).
Proof.
  intros Hw Hquiet Hclosed. rewrite (FetchExitCode_watching _ _ Hw).
  rewrite (rangeResultChan_exhausted _ _ _ Hquiet), Hclosed. reflexivity.
Qed.

(** C1 (amended).  Let the watch deliver events [pre], then a pod snapshot
    and possibly more.  If every event of [pre] is a pod snapshot that is
    neither Succeeded nor Failed and, when Running, has no terminated
    container at all, and the snapshot after them is Succeeded, Failed or
    Running with its (uniquely named) conformance container terminated with
    exit code [E], then [FetchExitCode] returns nil, assigns the exit code
    exactly once, namely [E], and has received the events up to that
    snapshot and none after it. *)
Theorem FetchExitCode_records_exit_code_once
  (c : Client) (w : watch.Interface) (pre post : list Event)
  (event : Event) (pod : Pod) (E : Z) :
  PodsWatch (ClientSet c) (viper_GetString "namespace")
    ("metadata.name=" ++ PodName)%string = inl w ->
  delivered w = pre ++ event :: post ->
  forallb keepsObserving pre = true ->
  Object_ event = PodObject pod ->
  scannedPhase (Phase (Status pod)) = true ->
  reportsTerminated pod E ->
  let r := FetchExitCode c in
  result r = Returned None /\
  stores (trace r) = [E] /\
  ExitCode (receiver r) = E /\
  received (trace r) = pre ++ [event].
Proof.
  intros Hw Hdel Hpre Hobj Hphase Hrep.
  pose proof (reportsTerminated_some_terminated _ _ Hrep) as Hsome.
  pose proof (FetchExitCode_stops_at c w pre post event pod
                Hw Hdel Hpre Hobj Hphase (fun _ => Hsome)) as H.
  cbn zeta in *. rewrite (conformanceCodes_unique _ _ Hrep) in H.
  destruct H as (Ho & Hs & Hr & He). repeat split; assumption.
Qed.

(** C4 (amended).  A Running snapshot whose conformance container has
    terminated with exit code [E], when the loop receives it, that is, after
    events that all kept the loop observing, makes [FetchExitCode] assign
    [E] and return nil at once: the snapshot is the last event it receives,
    whatever the watch would deliver later. *)
Theorem FetchExitCode_running_pod_container_exited
  (c : Client) (w : watch.Interface) (pre post : list Event)
  (event : Event) (pod : Pod) (E : Z) :
  PodsWatch (ClientSet c) (viper_GetString "namespace")
    ("metadata.name=" ++ PodName)%string = inl w ->
  delivered w = pre ++ event :: post ->
  forallb keepsObserving pre = true ->
  Object_ event = PodObject pod ->
  Phase (Status pod) = PodRunning ->
  reportsTerminated pod E ->
  let r := FetchExitCode c in
  result r = Returned None /\
  ExitCode (receiver r) = E /\
  stores (trace r) = [E] /\
  received (trace r) = pre ++ [event].
Proof.
  intros Hw Hdel Hpre Hobj Hphase Hrep.
  pose proof (reportsTerminated_some_terminated _ _ Hrep) as Hsome.
  assert (Hscan : scannedPhase (Phase (Status pod)) = true)
    by (rewrite Hphase; reflexivity).
  destruct (FetchExitCode_stops_at c w pre post event pod
              Hw Hdel Hpre Hobj Hscan (fun _ => Hsome)) as (Ho & Hs & Hr & He).
  rewrite (conformanceCodes_unique _ _ Hrep) in Hs, He.
  cbn zeta. repeat split; assumption.
Qed.

(** C10.  A Running snapshot in which some container, whichever it is, has
    terminated ends the loop: [FetchExitCode] returns nil and that snapshot
    is the last event it receives.  If no terminated container of the
    snapshot is the conformance container, nothing is assigned and
    [ExitCode] keeps the value it had. *)
Theorem FetchExitCode_stops_on_any_terminated_container
  (c : Client) (w : watch.Interface) (pre post : list Event)
  (event : Event) (pod : Pod) :
  PodsWatch (ClientSet c) (viper_GetString "namespace")
    ("metadata.name=" ++ PodName)%string = inl w ->
  delivered w = pre ++ event :: post ->
  forallb keepsObserving pre = true ->
  Object_ event = PodObject pod ->
  Phase (Status pod) = PodRunning ->
  existsb isTerminated (ContainerStatuses (Status pod)) = true ->
  let r := FetchExitCode c in
  result r = Returned None /\
  received (trace r) = pre ++ [event] /\
  (forallb (fun cs => negb (isConformance cs && isTerminated cs))
     (ContainerStatuses (Status pod)) = true ->
   stores (trace r) = [] /\ ExitCode (receiver r) = ExitCode c).
Proof.
  intros Hw Hdel Hpre Hobj Hphase Hsome.
  assert (Hscan : scannedPhase (Phase (Status pod)) = true)
    by (rewrite Hphase; reflexivity).
  destruct (FetchExitCode_stops_at c w pre post event pod
              Hw Hdel Hpre Hobj Hscan (fun _ => Hsome)) as (Ho & Hs & Hr & He).
  cbn zeta. repeat split; try assumption.
  - rewrite Hs. now apply conformanceCodes_nil.
  - rewrite He, conformanceCodes_nil by assumption. reflexivity.
Qed.

(** C5.  If the first event of the established watch carries an object that
    is not a pod, [FetchExitCode] logs it, sets [ExitCode] to -1 and returns
    nil; that event is the only one it receives. *)
Theorem FetchExitCode_undecodable_first_event
  (c : Client) (w : watch.Interface) (type_ kind : string) (rest : list Event) :
  PodsWatch (ClientSet c) (viper_GetString "namespace")
    ("metadata.name=" ++ PodName)%string = inl w ->
  delivered w = {| Type_ := type_; Object_ := OtherObject kind |} :: rest ->
  let r := FetchExitCode c in
  result r = Returned None /\
  ExitCode (receiver r) = -1 /\
  ClientSet (receiver r) = ClientSet c /\
  received (trace r) = [{| Type_ := type_; Object_ := OtherObject kind |}] /\
  trace r =
    [ Log "Waiting for Pod to terminate...";
      Recv {| Type_ := type_; Object_ := OtherObject kind |};
      Log "Received unexpected *v1.Pod object from Watch.";
      Store (-1) ].
Proof.
  intros Hw Hdel. cbn zeta.
  rewrite (FetchExitCode_watching _ _ Hw), Hdel.
  repeat split.
Qed.

(** C2 (amended).  [FetchExitCode] returns an error exactly when the watch
    cannot be set up: the error is the wrapped watch error and the client is
    untouched.  Once the watch is established it never returns an error: it
    returns nil, or does not return at all when the result channel stays
    open after events that all keep the loop observing.  An object that is
    not a pod, reached by the loop, makes it return nil with [ExitCode] -1. *)
Theorem FetchExitCode_error_only_from_watch (c : Client) :
  (forall err,
     PodsWatch (ClientSet c) (viper_GetString "namespace")
       ("metadata.name=" ++ PodName)%string = inr err ->
     FetchExitCode c =
     (Returned (Some (Errorf_w "failed to watch Pods: " err)), c, [])) /\
  (forall w,
     PodsWatch (ClientSet c) (viper_GetString "namespace")
       ("metadata.name=" ++ PodName)%string = inl w ->
     let r := FetchExitCode c in
     (result r = Returned None \/
      (result r = Blocked /\ closes w = false /\
       forallb keepsObserving (delivered w) = true)) /\
     (forall pre event kind post,
        delivered w = pre ++ event :: post ->
        forallb keepsObserving pre = true ->
        Object_ event = OtherObject kind ->
        result r = Returned None /\
        ExitCode (receiver r) = -1 /\
        received (trace r) = pre ++ [event])).
Proof.
  split.
  - intros err Hw. unfold client.FetchExitCode. run_step. now rewrite Hw.
  - intros w Hw. cbn zeta. rewrite (FetchExitCode_watching _ _ Hw).
    unfold result, receiver, trace; cbn [fst snd]. split.
    + apply rangeResultChan_outcome.
    + intros pre event kind post Hdel Hpre Hobj. rewrite Hdel.
      rewrite (rangeResultChan_skip _ _ _ _ Hpre).
      assert (Hev : onEvent event c =
                (ReturnNil, set_ExitCode (-1) c,
                 [Log "Received unexpected *v1.Pod object from Watch.";
                  Store (-1)])).
      { unfold client.onEvent. now rewrite Hobj. }
      rewrite rangeResultChan_stop
        by (rewrite Hev; unfold result; cbn; discriminate).
      rewrite Hev. unfold result, receiver, trace; cbn [fst snd].
      repeat split.
      cbn [received]. rewrite received_app, received_map_Recv. reflexivity.
Qed.

(** ** Further properties of [FetchExitCode] *)

Local Abbreviation conformanceExit := (client.conformanceExit ConformanceContainer).

(** X1.  A Succeeded or Failed snapshot, reached after events that kept the
    loop observing, always ends [FetchExitCode] with nil, whatever its
    container statuses are, and no later event is received.  If none of its
    statuses is a terminated one of the conformance container (the list may
    be empty), nothing is assigned and [ExitCode] keeps its value. *)
Theorem FetchExitCode_terminal_phase_stops
  (c : Client) (w : watch.Interface) (pre post : list Event)
  (event : Event) (pod : Pod) :
  PodsWatch (ClientSet c) (viper_GetString "namespace")
    ("metadata.name=" ++ PodName)%string = inl w ->
  delivered w = pre ++ event :: post ->
  forallb keepsObserving pre = true ->
  Object_ event = PodObject pod ->
  Phase (Status pod) = PodSucceeded \/ Phase (Status pod) = PodFailed ->
  let r := FetchExitCode c in
  result r = Returned None /\
  received (trace r) = pre ++ [event] /\
  (forallb (fun cs => negb (isConformance cs && isTerminated cs))
     (ContainerStatuses (Status pod)) = true ->
   stores (trace r) = [] /\ ExitCode (receiver r) = ExitCode c).
Proof.
  intros Hw Hdel Hpre Hobj Hphase.
  assert (Hscan : scannedPhase (Phase (Status pod)) = true)
    by (destruct Hphase as [-> | ->]; reflexivity).
  assert (Hrun : (Phase (Status pod) =? PodRunning)%string = true ->
                 existsb isTerminated (ContainerStatuses (Status pod)) = true)
    by (destruct Hphase as [-> | ->]; discriminate).
  destruct (FetchExitCode_stops_at c w pre post event pod
              Hw Hdel Hpre Hobj Hscan Hrun) as (Ho & Hs & Hr & He).
  cbn zeta. repeat split; try assumption.
  - rewrite Hs. now apply conformanceCodes_nil.
  - rewrite He, conformanceCodes_nil by assumption. reflexivity.
Qed.

(** X2.  The run is decided by the first event that does not keep the loop
    observing: [FetchExitCode] returns nil with the client as handling that
    one event leaves it, having received the events up to it.  The events
    after it, and whether the channel is ever closed, make no difference. *)
Theorem FetchExitCode_decided_by_first_stop
  (c : Client) (w : watch.Interface) (pre post : list Event) (event : Event) :
  PodsWatch (ClientSet c) (viper_GetString "namespace")
    ("metadata.name=" ++ PodName)%string = inl w ->
  delivered w = pre ++ event :: post ->
  forallb keepsObserving pre = true ->
  keepsObserving event = false ->
  FetchExitCode c =
  (Returned None,
   receiver (onEvent event c),
   Log "Waiting for Pod to terminate..."
     :: map Recv pre ++ Recv event :: trace (onEvent event c)).
Proof.
  intros Hw Hdel Hpre Hstop.
  rewrite (FetchExitCode_watching _ _ Hw), Hdel.
  rewrite (rangeResultChan_skip _ _ _ _ Hpre).
  rewrite rangeResultChan_stop by now apply onEvent_not_keepsObserving.
  reflexivity.
Qed.

(** X3.  With the watch established, [FetchExitCode] fails to return exactly
    when the result channel is never closed and every event it delivers
    keeps the loop observing; in every other case it returns nil. *)
Theorem FetchExitCode_blocks_iff (c : Client) (w : watch.Interface) :
  PodsWatch (ClientSet c) (viper_GetString "namespace")
    ("metadata.name=" ++ PodName)%string = inl w ->
  (result (FetchExitCode c) = Blocked <->
   closes w = false /\ forallb keepsObserving (delivered w) = true) /\
  (result (FetchExitCode c) <> Blocked ->
   result (FetchExitCode c) = Returned None).
Proof.
  intros Hw. rewrite (FetchExitCode_watching _ _ Hw).
  pose proof (rangeResultChan_outcome (delivered w) (closes w) c) as Hout.
  unfold result in *; cbn [fst] in *.
  split; [split|].
  - intros Hb. destruct Hout as [Hnil|(_ & Hc & Hq)]; [|now split].
    rewrite Hnil in Hb. discriminate.
  - intros [Hc Hq]. rewrite (rangeResultChan_exhausted _ _ _ Hq), Hc.
    reflexivity.
  - intros Hnb. destruct Hout as [Hnil|(Hb & _)]; [exact Hnil|contradiction].
Qed.

Lemma conformanceCodes_from_status (statuses : list ContainerStatus) (code : Z) :
  In code (conformanceCodes statuses) ->
  exists cs, In cs statuses /\ conformanceExit cs code.
Proof.
  induction statuses as [|cs rest IH]; [contradiction|].
  cbn [client.conformanceCodes]. unfold client.isConformance.
  destruct (Terminated (State cs)) as [t|] eqn:Hterm.
  - destruct (String.eqb_spec (Name cs) ConformanceContainer) as [Hname|_].
    + intros [Hcode|Hin].
      * exists cs. split; [now left|]. split; [exact Hname|]. now exists t.
      * destruct (IH Hin) as (cs' & Hin' & Hexit). exists cs'. split; [now right|exact Hexit].
    + intros Hin. destruct (IH Hin) as (cs' & Hin' & Hexit).
      exists cs'. split; [now right|exact Hexit].
  - intros Hin. destruct (IH Hin) as (cs' & Hin' & Hexit).
    exists cs'. split; [now right|exact Hexit].
Qed.

Lemma last_default_or_member (codes : list Z) (d : Z) :
  last codes d = d \/ In (last codes d) codes.
Proof.
  induction codes as [|z codes IH]; [now left|].
  destruct codes as [|z' codes]; [right; now left|].
  change (last (z :: z' :: codes) d) with (last (z' :: codes) d).
  destruct IH as [Hd|Hin]; [now left|right; now right].
Qed.

(** Where the exit code comes from when one event has been handled. *)
Lemma onEvent_provenance (event : Event) (c : Client) :
  let r := onEvent event c in
  ClientSet (receiver r) = ClientSet c /\
  (ExitCode (receiver r) = ExitCode c \/
   ExitCode (receiver r) = -1 \/
   exists pod cs,
     Object_ event = PodObject pod /\
     In cs (ContainerStatuses (Status pod)) /\
     conformanceExit cs (ExitCode (receiver r))).
Proof.
  cbn zeta. unfold client.onEvent.
  destruct (Object_ event) as [pod|kind] eqn:Hobj; cbn zeta.
  - assert (Hlast : forall code,
              code = last (conformanceCodes (ContainerStatuses (Status pod)))
                       (ExitCode c) ->
              code = ExitCode c \/ code = -1 \/
              exists pod' cs,
                PodObject pod = PodObject pod' /\
                In cs (ContainerStatuses (Status pod')) /\
                conformanceExit cs code).
    { intros code ->.
      destruct (last_default_or_member
                  (conformanceCodes (ContainerStatuses (Status pod)))
                  (ExitCode c)) as [Hd|Hin]; [now left|].
      right; right. apply conformanceCodes_from_status in Hin as (cs & Hin & Hexit).
      now exists pod, cs. }
    destruct ((Phase (Status pod) =? PodSucceeded)%string
              || (Phase (Status pod) =? PodFailed)%string).
    + pose proof (scanTerminal_spec (ContainerStatuses (Status pod)) c) as H.
      cbn zeta in H. run_step.
      destruct (scanTerminal _ c) as [[u c2] t2].
      unfold result, receiver, trace in *; cbn [fst snd] in *.
      destruct H as (_ & _ & He & Hc). split; [exact Hc|]. now apply Hlast.
    + destruct (Phase (Status pod) =? PodRunning)%string.
      * pose proof (scanRunning_spec (ContainerStatuses (Status pod)) false c) as H.
        cbn zeta in H. run_step.
        destruct (scanRunning _ false c) as [[b c2] t2].
        unfold result, receiver, trace in *; cbn [fst snd] in *.
        destruct H as (_ & _ & _ & He & Hc). split; [exact Hc|]. now apply Hlast.
      * cbn. split; [reflexivity|now left].
  - cbn. split; [reflexivity|]. right; now left.
Qed.

(** X4.  [FetchExitCode] never changes [ClientSet], and the [ExitCode] it
    leaves is the one it found, or -1, or the exit code of a terminated
    status with the conformance container's name in a pod that the watch
    delivered. *)
Theorem FetchExitCode_exit_code_provenance (c : Client) :
  let r := FetchExitCode c in
  ClientSet (receiver r) = ClientSet c /\
  (ExitCode (receiver r) = ExitCode c \/
   ExitCode (receiver r) = -1 \/
   exists w event pod cs,
     PodsWatch (ClientSet c) (viper_GetString "namespace")
       ("metadata.name=" ++ PodName)%string = inl w /\
     In event (delivered w) /\
     Object_ event = PodObject pod /\
     In cs (ContainerStatuses (Status pod)) /\
     conformanceExit cs (ExitCode (receiver r))).
Proof.
  cbn zeta.
  destruct (PodsWatch (ClientSet c) (viper_GetString "namespace")
              ("metadata.name=" ++ PodName)%string) as [w|err] eqn:Hw.
  - rewrite (FetchExitCode_watching _ _ Hw).
    unfold receiver at 1 2 3 4; cbn [fst snd].
    assert (Hloop : forall events,
              ClientSet (receiver (rangeResultChan events (closes w) c)) = ClientSet c /\
              (ExitCode (receiver (rangeResultChan events (closes w) c)) = ExitCode c \/
               ExitCode (receiver (rangeResultChan events (closes w) c)) = -1 \/
               exists event pod cs,
                 In event events /\
                 Object_ event = PodObject pod /\
                 In cs (ContainerStatuses (Status pod)) /\
                 conformanceExit cs
                   (ExitCode (receiver (rangeResultChan events (closes w) c))))).
    { induction events as [|event rest IH].
      - cbn. split; [reflexivity|now left].
      - destruct (keepsObserving event) eqn:Hev.
        + change (event :: rest) with ([event] ++ rest) at 1 2 3 5.
          rewrite (rangeResultChan_skip [event] rest (closes w) c)
            by (cbn; now rewrite Hev).
          unfold receiver at 1 3 5 7; cbn [fst snd].
          destruct IH as [Hc [He|[He|(ev & pod & cs & Hin & Hobj & Hcs & Hexit)]]];
            (split; [exact Hc|]); [now left|right; now left|].
          right; right. exists ev, pod, cs.
          split; [now right|]. split; [exact Hobj|]. split; [exact Hcs|exact Hexit].
        + rewrite rangeResultChan_stop by now apply onEvent_not_keepsObserving.
          unfold receiver at 1 3 5 7; cbn [fst snd].
          destruct (onEvent_provenance event c)
            as [Hc [He|[He|(pod & cs & Hobj & Hcs & Hexit)]]];
            (split; [exact Hc|]); [now left|right; now left|].
          right; right. exists event, pod, cs.
          split; [now left|]. split; [exact Hobj|]. split; [exact Hcs|exact Hexit]. }
    destruct (Hloop (delivered w))
      as [Hc [He|[He|(ev & pod & cs & Hin & Hobj & Hcs & Hexit)]]];
      (split; [exact Hc|]); [now left|right; now left|].
    right; right. now exists w, ev, pod, cs.
  - unfold client.FetchExitCode. run_step. rewrite Hw. cbn.
    split; [reflexivity|now left].
Qed.

(** X5.  The loop never looks at the type of an event: relabelling the
    events (ADDED, MODIFIED, DELETED, ...) changes neither how the call
    ends, nor the client it leaves, nor the exit codes it assigns. *)
Theorem rangeResultChan_ignores_event_type
  (relabel : Event -> string) (events : list Event) (closes : bool) (c : Client) :
  let r := rangeResultChan (map (fun ev => withType (relabel ev) ev) events)
             closes c in
  let r0 := rangeResultChan events closes c in
  result r = result r0 /\
  receiver r = receiver r0 /\
  stores (trace r) = stores (trace r0).
Proof.
  cbn zeta. induction events as [|event rest IH].
  - cbn. repeat split.
  - cbn [map client.rangeResultChan]. run_step.
    change (onEvent (withType (relabel event) event) c) with (onEvent event c).
    destruct (keepsObserving event) eqn:Hev.
    + rewrite (onEvent_keepsObserving _ _ Hev).
      destruct (rangeResultChan (map _ rest) closes c) as [[o1 c1] t1].
      destruct (rangeResultChan rest closes c) as [[o2 c2] t2].
      exact IH.
    + pose proof (onEvent_not_keepsObserving _ c Hev) as Hstop.
      destruct (onEvent event c) as [[flow c1] t1].
      unfold result in Hstop; cbn in Hstop.
      destruct flow; [contradiction| |]; cbn; repeat split.
Qed.

End FetchExitCodeFacts.

(** * Properties of [PrintE2ELogs] *)

Section PrintE2ELogsFacts.
Import v1 watch client.
Local Open Scope go_scope.

Variable PodName : string.
Variable viper_GetString : string -> string.
Variable fmt_Print : string -> option error.

Local Abbreviation selectLoop := (client.selectLoop fmt_Print).
Local Abbreviation pollLoop := (client.pollLoop PodName viper_GetString fmt_Print).
Local Abbreviation PrintE2ELogs :=
  (client.PrintE2ELogs PodName viper_GetString fmt_Print).
Local Abbreviation lookup := (client.lookup PodName viper_GetString).
Local Abbreviation observesRunning := (client.observesRunning PodName viper_GetString).
Local Abbreviation lookupFails := (client.lookupFails PodName viper_GetString).

(** One iteration of the [select] loop. *)
Lemma selectLoop_cons (s : Signal) (rest : list Signal) (c : Client) :
  selectLoop (s :: rest) c =
  match s with
  | errCh err => (Fatal err, c, [Select s])
  | logCh logStream =>
      match fmt_Print logStream with
      | Some err => (Fatal err, c, [Select s; Print logStream])
      | None =>
          (result (selectLoop rest c), receiver (selectLoop rest c),
           Select s :: Print logStream :: trace (selectLoop rest c))
      end
  | doneCh _ => (Returned None, c, [Select s])
  end.
Proof.
  cbn [client.selectLoop]. run_step. destruct s as [err|logStream|b]; cbn.
  - reflexivity.
  - destruct (fmt_Print logStream); cbn; [reflexivity|].
    now destruct (selectLoop rest c) as [[o c'] t].
  - reflexivity.
Qed.



(** The three ways the polling loop can stand after [fuel] iterations that
    began at lookup [n]: still polling, stopped by the nil pointer, or gone
    on to the log stream. *)
Lemma pollLoop_cases (fuel n : nat) (c : Client) :
  exists k,
    (k <= fuel)%nat /\
    (forall j, (n <= j < n + k)%nat ->
       observesRunning c j = false /\ lookupFails c j = false) /\
    ((k = fuel /\ pollLoop fuel n c = (None, c, map Get (seq n k))) \/
     (lookupFails c (n + k) = true /\ (k < fuel)%nat /\
      pollLoop fuel n c =
      (Some (Panicked "invalid memory address or nil pointer dereference"), c,
       map Get (seq n (S k)))) \/
     (observesRunning c (n + k) = true /\ (k < fuel)%nat /\
      pollLoop fuel n c =
      (Some (result (selectLoop (PodLogs (ClientSet c)) c)),
       receiver (selectLoop (PodLogs (ClientSet c)) c),
       map Get (seq n (S k)) ++ trace (selectLoop (PodLogs (ClientSet c)) c)))).
Proof.
  revert n; induction fuel as [|fuel IH]; intros n.
  - exists O. split; [lia|]. split; [intros j Hj; lia|]. left. now split.
  - cbn [client.pollLoop]. run_step.
    destruct (fst (ListerGet (ClientSet c) (viper_GetString "namespace") PodName n))
      as [pod|] eqn:Hget.
    + destruct (Phase (Status pod) =? PodRunning)%string eqn:Hphase.
      * exists O. split; [lia|]. split; [intros j Hj; lia|]. right; right.
        rewrite Nat.add_0_r. split; [|split; [lia|]].
        -- unfold client.observesRunning, client.lookup. now rewrite Hget.
        -- run_step.
           destruct (selectLoop (PodLogs (ClientSet c)) c) as [[o c'] t].
           cbn. now rewrite app_nil_r.
      * destruct (IH (S n)) as (k & Hk & Hbefore & Hcases).
        exists (S k). split; [lia|]. split.
        -- intros j Hj. destruct (Nat.eq_dec j n) as [->|Hne].
           ++ unfold client.observesRunning, client.lookupFails, client.lookup.
              rewrite Hget. now split.
           ++ apply Hbefore. lia.
        -- replace (n + S k)%nat with (S n + k)%nat by lia.
           destruct Hcases as [[-> Hr]|[(Hf & Hlt & Hr)|(Hf & Hlt & Hr)]];
             rewrite Hr; cbn [fst snd app]; [left|right; left|right; right];
             repeat split; auto; lia.
    + exists O. split; [lia|]. split; [intros j Hj; lia|]. right; left.
      rewrite Nat.add_0_r. split; [|split; [lia|reflexivity]].
      unfold client.lookupFails, client.lookup. now rewrite Hget.
Qed.


(** X22.  As long as every lookup yields a pod object, the polling loop
    stops polling if and only if some lookup yields a pod whose phase is
    Running.  If none does, the loop is still polling after any number of
    iterations, each of which is one more lookup: nothing in the loop bounds
    their number. *)
Theorem pollLoop_stops_iff_running (c : Client) :
  (forall n, lookupFails c n = false) ->
  ((exists fuel o, result (pollLoop fuel 0 c) = Some o) <->
   (exists n, observesRunning c n = true)) /\
  ((forall n, observesRunning c n = false) ->
   forall fuel, pollLoop fuel 0 c = (None, c, map Get (seq 0 fuel))).
Proof.
  intros Hpods. split; [split|].
  - intros (fuel & o & Ho).
    destruct (pollLoop_cases fuel 0 c) as (k & _ & _ & Hcases).
    destruct Hcases as [[_ Hr]|[(Hf & _)|(Hrun & _)]].
    + rewrite Hr in Ho. discriminate.
    + rewrite Hpods in Hf. discriminate.
    + now exists (0 + k)%nat.
  - intros (n & Hn).
    destruct (pollLoop_cases (S n) 0 c) as (k & Hk & Hbefore & Hcases).
    destruct Hcases as [[-> _]|[(Hf & _)|(_ & _ & Hr)]].
    + destruct (Hbefore n) as [Hno _]; [lia|]. rewrite Hn in Hno. discriminate.
    + rewrite Hpods in Hf. discriminate.
    + exists (S n). eexists. rewrite Hr. reflexivity.
  - intros Hnever fuel.
    destruct (pollLoop_cases fuel 0 c) as (k & _ & _ & Hcases).
    destruct Hcases as [[-> Hr]|[(Hf & _)|(Hrun & _)]].
    + exact Hr.
    + rewrite Hpods in Hf. discriminate.
    + rewrite Hnever in Hrun. discriminate.
Qed.


(** ** Further properties of [PrintE2ELogs] *)

Local Abbreviation firstRunningAt := (client.firstRunningAt PodName viper_GetString).

(** Lines that print are passed one by one. *)
Lemma selectLoop_lines (lines : list string) (rest : list Signal) (c : Client) :
  (forall line, In line lines -> fmt_Print line = None) ->
  selectLoop (map logCh lines ++ rest) c =
  (result (selectLoop rest c), receiver (selectLoop rest c),
   flat_map lineSteps lines ++ trace (selectLoop rest c)).
Proof.
  induction lines as [|line lines IH]; intros Hok.
  - cbn. now destruct (selectLoop rest c) as [[o c'] t].
  - cbn [map app flat_map]. rewrite selectLoop_cons.
    rewrite (Hok line) by now left.
    rewrite IH by (intros l Hl; apply Hok; now right).
    reflexivity.
Qed.

Lemma selectLoop_receiver (signals : list Signal) (c : Client) :
  receiver (selectLoop signals c) = c /\
  stores (trace (selectLoop signals c)) = [].
Proof.
  induction signals as [|s rest IH]; [now split|].
  rewrite selectLoop_cons. destruct s as [err|line|b]; [now split| |now split].
  destruct (fmt_Print line); [now split|exact IH].
Qed.

Lemma stores_lookups (ns : list nat) : stores (map Get ns) = [].
Proof. induction ns; [reflexivity|exact IHns]. Qed.

(** Once the pod has been seen Running, the rest of the call is the
    [select] loop. *)
Lemma PrintE2ELogs_after_running (fuel i : nat) (c : Client) :
  AddEventHandler (ClientSet c) = None ->
  firstRunningAt c i ->
  (i < fuel)%nat ->
  PrintE2ELogs fuel c =
  (Some (result (selectLoop (PodLogs (ClientSet c)) c)),
   receiver (selectLoop (PodLogs (ClientSet c)) c),
   map Get (seq 0 (S i)) ++ trace (selectLoop (PodLogs (ClientSet c)) c)).
Proof.
  intros Hadd [Hbefore Hrun] Hfuel.
  unfold client.PrintE2ELogs. run_step. rewrite Hadd.
  destruct (pollLoop_cases fuel 0 c) as (k & Hk & Hquiet & Hcases).
  assert (Hki : k = i \/ (k < i)%nat \/ (i < k)%nat) by lia.
  assert (Hfails : lookupFails c i = false).
  { unfold client.lookupFails. unfold client.observesRunning in Hrun.
    now destruct (lookup c i). }
  destruct Hcases as [[-> _]|[(Hf & _ & _)|(Hr & _ & Heq)]].
  - destruct (Hquiet i) as [Hno _]; [lia|]. rewrite Hrun in Hno. discriminate.
  - cbn [Nat.add] in Hf. destruct Hki as [->|[Hlt|Hgt]].
    + rewrite Hfails in Hf. discriminate.
    + destruct (Hbefore k Hlt) as [_ Hnf]. rewrite Hnf in Hf. discriminate.
    + destruct (Hquiet i) as [Hno _]; [lia|]. rewrite Hrun in Hno. discriminate.
  - cbn [Nat.add] in Hr. destruct Hki as [->|[Hlt|Hgt]].
    + rewrite Heq. reflexivity.
    + destruct (Hbefore k Hlt) as [Hno _]. rewrite Hr in Hno. discriminate.
    + destruct (Hquiet i) as [Hno _]; [lia|]. rewrite Hrun in Hno. discriminate.
Qed.

(** X6.  When the event handler is registered and the pod is first seen
    Running at lookup [i], [PrintE2ELogs] makes exactly [i + 1] lookups and
    then prints the log lines in the order they arrive.  With the done
    signal after them it returns nil; whatever the stream would send after
    the done signal is not taken. *)
Theorem PrintE2ELogs_prints_lines_until_done
  (fuel i : nat) (c : Client) (lines : list string) (b : bool)
  (rest : list Signal) :
  AddEventHandler (ClientSet c) = None ->
  firstRunningAt c i ->
  (i < fuel)%nat ->
  PodLogs (ClientSet c) = map logCh lines ++ doneCh b :: rest ->
  (forall line, In line lines -> fmt_Print line = None) ->
  PrintE2ELogs fuel c =
  (Some (Returned None), c,
   map Get (seq 0 (S i)) ++ flat_map lineSteps lines ++ [Select (doneCh b)]).
Proof.
  intros Hadd Hfirst Hfuel Hlogs Hok.
  rewrite (PrintE2ELogs_after_running fuel i c Hadd Hfirst Hfuel), Hlogs.
  rewrite (selectLoop_lines lines _ c Hok), selectLoop_cons. reflexivity.
Qed.

(** X7.  A log line that [fmt.Print] fails to write ends the run through
    [log.Fatal] with the print error: the lines before it have been printed
    in order, and nothing after it is taken from the stream. *)
Theorem PrintE2ELogs_print_error_is_fatal
  (fuel i : nat) (c : Client) (lines : list string) (bad : string)
  (err : error) (rest : list Signal) :
  AddEventHandler (ClientSet c) = None ->
  firstRunningAt c i ->
  (i < fuel)%nat ->
  PodLogs (ClientSet c) = map logCh lines ++ logCh bad :: rest ->
  (forall line, In line lines -> fmt_Print line = None) ->
  fmt_Print bad = Some err ->
  PrintE2ELogs fuel c =
  (Some (Fatal err), c,
   map Get (seq 0 (S i)) ++ flat_map lineSteps lines ++ lineSteps bad).
Proof.
  intros Hadd Hfirst Hfuel Hlogs Hok Hbad.
  rewrite (PrintE2ELogs_after_running fuel i c Hadd Hfirst Hfuel), Hlogs.
  rewrite (selectLoop_lines lines _ c Hok), selectLoop_cons, Hbad. reflexivity.
Qed.

(** X8.  If the stream sends its lines and then nothing more, neither an
    error nor the done signal, [PrintE2ELogs] prints the lines and then
    waits in [select] for ever: it does not return, however long it runs. *)
Theorem PrintE2ELogs_waits_without_done
  (fuel i : nat) (c : Client) (lines : list string) :
  AddEventHandler (ClientSet c) = None ->
  firstRunningAt c i ->
  (i < fuel)%nat ->
  PodLogs (ClientSet c) = map logCh lines ->
  (forall line, In line lines -> fmt_Print line = None) ->
  PrintE2ELogs fuel c =
  (Some Blocked, c, map Get (seq 0 (S i)) ++ flat_map lineSteps lines).
Proof.
  intros Hadd Hfirst Hfuel Hlogs Hok.
  rewrite (PrintE2ELogs_after_running fuel i c Hadd Hfirst Hfuel), Hlogs.
  rewrite <- (app_nil_r (map logCh lines)).
  rewrite (selectLoop_lines lines [] c Hok). cbn. now rewrite app_nil_r.
Qed.

(** X9.  [PrintE2ELogs] leaves the client as it found it, whatever the
    cluster does and however the call ends; in particular it never assigns
    [ExitCode]. *)
Theorem PrintE2ELogs_leaves_client (fuel : nat) (c : Client) :
  receiver (PrintE2ELogs fuel c) = c /\
  stores (trace (PrintE2ELogs fuel c)) = [].
Proof.
  unfold client.PrintE2ELogs. run_step.
  destruct (AddEventHandler (ClientSet c)); [now split|]. run_step.
  destruct (selectLoop_receiver (PodLogs (ClientSet c)) c) as [Hrecv Hst].
  destruct (pollLoop_cases fuel 0 c) as (k & _ & _ & Hcases).
  destruct Hcases as [[_ Hr]|[(_ & _ & Hr)|(_ & _ & Hr)]]; rewrite Hr;
    unfold receiver, trace in *; cbn [fst snd]; rewrite app_nil_l.
  - split; [reflexivity|apply stores_lookups].
  - split; [reflexivity|apply stores_lookups].
  - split; [exact Hrecv|]. now rewrite stores_app, stores_lookups, Hst.
Qed.

End PrintE2ELogsFacts.

(** ** [FetchExitCode] on concrete clusters *)

Section FetchExitCodeRuns.
Import v1 watch client.

(** The first scenario of the specification: Pending, Running, Running with
    the conformance container exited with 0, and a later snapshot. *)
Example FetchExitCode_pending_running_exited :
  example.FetchExitCode
    (example.newClient (example.watching example.pendingRunningExited true)) =
  (Returned None,
   example.newClient (example.watching example.pendingRunningExited true),
   [ Log "Waiting for Pod to terminate...";
     Recv (example.snapshot PodPending []);
     Recv (example.snapshot PodRunning
             [example.active example.ConformanceContainer;
              example.active example.OutputContainer]);
     Recv (example.snapshot PodRunning
             [example.exited example.ConformanceContainer 0;
              example.active example.OutputContainer]);
     Log "Container conformance-container terminated.";
     Store 0 ]).
Proof. reflexivity. Qed.

(** The second scenario: Pending, then Failed with exit code 2. *)
Example FetchExitCode_pending_failed :
  example.FetchExitCode
    (example.newClient (example.watching example.pendingFailed false)) =
  (Returned None,
   set_ExitCode 2 (example.newClient (example.watching example.pendingFailed false)),
   [ Log "Waiting for Pod to terminate...";
     Recv (example.snapshot PodPending []);
     Recv (example.snapshot PodFailed
             [example.exited example.ConformanceContainer 2;
              example.exited example.OutputContainer 0]);
     Log "Pod terminated.";
     Store 2 ]).
Proof. reflexivity. Qed.

Lemma FetchExitCode_records_exit_code_once_witness :
  let r := example.FetchExitCode
             (example.newClient (example.watching example.pendingFailed false)) in
  result r = Returned None /\
  stores (trace r) = [2] /\
  ExitCode (receiver r) = 2 /\
  received (trace r) = [example.snapshot PodPending []] ++
    [example.snapshot PodFailed
       [example.exited example.ConformanceContainer 2;
        example.exited example.OutputContainer 0]].
Proof.
  apply (FetchExitCode_records_exit_code_once
           example.PodName example.ConformanceContainer example.viper_GetString
           (example.newClient (example.watching example.pendingFailed false))
           {| delivered := example.pendingFailed; closes := false |}
           [example.snapshot PodPending []] []
           _ (example.podWith PodFailed
                [example.exited example.ConformanceContainer 2;
                 example.exited example.OutputContainer 0]) 2);
    try reflexivity.
  split.
  - repeat constructor; simpl; intuition discriminate.
  - exists (example.exited example.ConformanceContainer 2), {| v1.ExitCode := 2 |}.
    repeat split. left; reflexivity.
Defined.

(** C1, as stated, fails.  (1) The output container exits while the pod is
    Running and the conformance container is still active: the snapshot is
    not terminal for the specification, yet [FetchExitCode] returns at it;
    the next snapshot, in which the conformance container reports exit code
    2, is never received and nothing is assigned.  (2) The conformance
    container reports exit code 2 in a Pending snapshot after which the
    channel closes: the loop passes over it and nothing is assigned. *)
Lemma FetchExitCode_misses_conformance_exit :
  (let c := example.newClient (example.watching example.sidecarFirst true) in
   let r := example.FetchExitCode c in
   forallb (nonTerminal example.ConformanceContainer)
     [example.snapshot PodRunning
        [example.exited example.OutputContainer 0;
         example.active example.ConformanceContainer]] = true /\
   reportsTerminated example.ConformanceContainer
     (example.podWith PodRunning
        [example.exited example.OutputContainer 0;
         example.exited example.ConformanceContainer 2]) 2 /\
   r = (Returned None, c,
        [ Log "Waiting for Pod to terminate...";
          Recv (example.snapshot PodRunning
                  [example.exited example.OutputContainer 0;
                   example.active example.ConformanceContainer]);
          Log "Container output-container terminated." ]) /\
   stores (trace r) <> [2] /\
   ExitCode (receiver r) <> 2) /\
  (let c := example.newClient (example.watching example.exitedWhilePending true) in
   let r := example.FetchExitCode c in
   reportsTerminated example.ConformanceContainer
     (example.podWith PodPending
        [example.active example.OutputContainer;
         example.exited example.ConformanceContainer 2]) 2 /\
   r = (Returned None, c,
        [ Log "Waiting for Pod to terminate...";
          Recv (example.snapshot PodPending
                  [example.active example.OutputContainer;
                   example.exited example.ConformanceContainer 2]) ]) /\
   stores (trace r) <> [2] /\
   ExitCode (receiver r) <> 2).
Proof.
  split; cbn zeta.
  - split; [reflexivity|]. split.
    + split.
      * repeat constructor; simpl; intuition discriminate.
      * exists (example.exited example.ConformanceContainer 2), {| v1.ExitCode := 2 |}.
        repeat split. right; left; reflexivity.
    + repeat split; discriminate.
  - split.
    + split.
      * repeat constructor; simpl; intuition discriminate.
      * exists (example.exited example.ConformanceContainer 2), {| v1.ExitCode := 2 |}.
        repeat split. right; left; reflexivity.
    + repeat split; discriminate.
Qed.

Lemma FetchExitCode_running_pod_container_exited_witness :
  let r := example.FetchExitCode
             (example.newClient
                (example.watching example.pendingRunningExited false)) in
  result r = Returned None /\
  ExitCode (receiver r) = 0 /\
  stores (trace r) = [0] /\
  received (trace r) = firstn 2 example.pendingRunningExited ++
    [example.snapshot PodRunning
       [example.exited example.ConformanceContainer 0;
        example.active example.OutputContainer]].
Proof.
  apply (FetchExitCode_running_pod_container_exited
           example.PodName example.ConformanceContainer example.viper_GetString
           (example.newClient
              (example.watching example.pendingRunningExited false))
           {| delivered := example.pendingRunningExited; closes := false |}
           (firstn 2 example.pendingRunningExited)
           (skipn 3 example.pendingRunningExited)
           _ (example.podWith PodRunning
                [example.exited example.ConformanceContainer 0;
                 example.active example.OutputContainer]) 0);
    try reflexivity.
  split.
  - repeat constructor; simpl; intuition discriminate.
  - exists (example.exited example.ConformanceContainer 0), {| v1.ExitCode := 0 |}.
    repeat split. left; reflexivity.
Defined.

(** C4, as stated, fails.  The watch delivers a Running snapshot whose
    conformance container has terminated with exit code 2, after a snapshot
    that is not terminal for the specification (the pod is Running, only the
    output container has exited).  [FetchExitCode] returns at that earlier
    snapshot: the snapshot with the conformance exit is never received,
    nothing is assigned and [ExitCode] stays 0. *)
Lemma FetchExitCode_running_exit_never_received :
  let c := example.newClient (example.watching example.sidecarFirst false) in
  let r := example.FetchExitCode c in
  nth_error (delivered {| delivered := example.sidecarFirst; closes := false |}) 1 =
    Some (example.snapshot PodRunning
            [example.exited example.OutputContainer 0;
             example.exited example.ConformanceContainer 2]) /\
  reportsTerminated example.ConformanceContainer
    (example.podWith PodRunning
       [example.exited example.OutputContainer 0;
        example.exited example.ConformanceContainer 2]) 2 /\
  forallb (nonTerminal example.ConformanceContainer)
    (firstn 1 example.sidecarFirst) = true /\
  result r = Returned None /\
  received (trace r) = firstn 1 example.sidecarFirst /\
  stores (trace r) = [] /\
  ExitCode (receiver r) = 0 /\
  ExitCode (receiver r) <> 2.
Proof.
  cbn zeta. split; [reflexivity|]. split.
  - split.
    + repeat constructor; simpl; intuition discriminate.
    + exists (example.exited example.ConformanceContainer 2), {| v1.ExitCode := 2 |}.
      repeat split. right; left; reflexivity.
  - repeat split. discriminate.
Qed.

Lemma FetchExitCode_stops_on_any_terminated_container_witness :
  let c := example.newClient (example.watching example.sidecarFirst true) in
  let r := example.FetchExitCode c in
  result r = Returned None /\
  received (trace r) = [] ++ firstn 1 example.sidecarFirst /\
  stores (trace r) = [] /\
  ExitCode (receiver r) = ExitCode c.
Proof.
  cbn zeta.
  destruct (FetchExitCode_stops_on_any_terminated_container
              example.PodName example.ConformanceContainer example.viper_GetString
              (example.newClient (example.watching example.sidecarFirst true))
              {| delivered := example.sidecarFirst; closes := true |}
              [] (skipn 1 example.sidecarFirst)
              _ (example.podWith PodRunning
                   [example.exited example.OutputContainer 0;
                    example.active example.ConformanceContainer])
              eq_refl eq_refl eq_refl eq_refl eq_refl eq_refl)
    as (Ho & Hr & Hkeep).
  destruct (Hkeep eq_refl) as [Hs He].
  repeat split; assumption.
Defined.

Lemma FetchExitCode_undecodable_first_event_witness :
  let c := example.newClient
             (example.watching (example.watchError :: example.pendingFailed) false) in
  let r := example.FetchExitCode c in
  result r = Returned None /\
  ExitCode (receiver r) = -1 /\
  ClientSet (receiver r) = ClientSet c /\
  received (trace r) = [example.watchError] /\
  trace r =
    [ Log "Waiting for Pod to terminate...";
      Recv example.watchError;
      Log "Received unexpected *v1.Pod object from Watch.";
      Store (-1) ].
Proof.
  apply (FetchExitCode_undecodable_first_event
           example.PodName example.ConformanceContainer example.viper_GetString
           (example.newClient
              (example.watching (example.watchError :: example.pendingFailed) false))
           {| delivered := example.watchError :: example.pendingFailed;
              closes := false |}
           "ERROR" "*v1.Status" example.pendingFailed);
    reflexivity.
Defined.

(** C2, as stated, fails: when the watch cannot be set up, [FetchExitCode]
    hands the wrapped error to its caller and decides no exit code. *)
Lemma FetchExitCode_propagates_watch_error :
  example.FetchExitCode (example.newClient example.unreachable) =
  (Returned (Some "failed to watch Pods: connection refused"),
   example.newClient example.unreachable,
   []).
Proof. reflexivity. Qed.

Lemma FetchExitCode_error_only_from_watch_witness :
  example.FetchExitCode (example.newClient example.unreachable) =
    (Returned (Some (Errorf_w "failed to watch Pods: " "connection refused")),
     example.newClient example.unreachable, []) /\
  (let r := example.FetchExitCode
              (example.newClient
                 (example.watching
                    [example.snapshot PodPending []; example.watchError] false)) in
   result r = Returned None /\
   ExitCode (receiver r) = -1 /\
   received (trace r) =
     [example.snapshot PodPending []] ++ [example.watchError]).
Proof.
  split.
  - apply (proj1 (FetchExitCode_error_only_from_watch
                    example.PodName example.ConformanceContainer
                    example.viper_GetString
                    (example.newClient example.unreachable))).
    reflexivity.
  - apply (proj2 (FetchExitCode_error_only_from_watch
                    example.PodName example.ConformanceContainer
                    example.viper_GetString
                    (example.newClient
                       (example.watching
                          [example.snapshot PodPending []; example.watchError]
                          false)))
             {| delivered := [example.snapshot PodPending []; example.watchError];
                closes := false |} eq_refl)
      with (kind := "*v1.Status") (post := @nil Event); reflexivity.
Defined.

(** C3: the code at the failing input.  The watch delivers a Pending and a
    Running snapshot without any terminated container and its channel is
    then closed.  [FetchExitCode] returns nil and [ExitCode] still holds the
    0 of a fresh client, not the -1 that stands for an undetermined exit
    code. *)
Example FetchExitCode_closed_stream_leaves_exit_code :
  let events :=
    [ example.snapshot PodPending [];
      example.snapshot PodRunning
        [example.active example.ConformanceContainer;
         example.active example.OutputContainer] ] in
  let c := example.newClient (example.watching events true) in
  example.FetchExitCode c =
    (Returned None, c,
     Log "Waiting for Pod to terminate..." :: map Recv events) /\
  ExitCode (receiver (example.FetchExitCode c)) = 0 /\
  ExitCode (receiver (example.FetchExitCode c)) <> -1.
Proof. cbn zeta. repeat split. discriminate. Qed.

End FetchExitCodeRuns.

(** ** [PrintE2ELogs] on concrete clusters *)

Section PrintE2ELogsRuns.
Import v1 watch client.

(** The pod starts after two polls; the stream sends two lines and is done. *)
Example PrintE2ELogs_prints_until_done :
  let c := example.newClient
             (example.polling example.startsAfterTwoPolls
                [logCh "a"; logCh "b"; doneCh true]) in
  example.PrintE2ELogs 3 c =
  (Some (Returned None), c,
   [ Get 0%nat; Get 1%nat; Get 2%nat;
     Select (logCh "a"); Print "a";
     Select (logCh "b"); Print "b";
     Select (doneCh true) ]).
Proof. reflexivity. Qed.


Lemma pollLoop_stops_iff_running_witness :
  (exists fuel o,
     result (example.pollLoop fuel 0
               (example.newClient
                  (example.polling example.startsAfterTwoPolls []))) = Some o) /\
  (forall fuel,
     example.pollLoop fuel 0
       (example.newClient (example.polling example.stuckPending [])) =
     (None, example.newClient (example.polling example.stuckPending []),
      map Get (seq 0 fuel))).
Proof.
  split.
  - assert (Hpods : forall n,
              lookupFails example.PodName example.viper_GetString
                (example.newClient
                   (example.polling example.startsAfterTwoPolls [])) n = false).
    { intros n. unfold lookupFails, lookup. cbn.
      unfold example.startsAfterTwoPolls.
      destruct (n <? 2)%nat; reflexivity. }
    apply (proj1 (pollLoop_stops_iff_running
                    example.PodName example.viper_GetString example.fmt_Print
                    (example.newClient
                       (example.polling example.startsAfterTwoPolls []))
                    Hpods)).
    exists 2%nat. reflexivity.
  - apply (proj2 (pollLoop_stops_iff_running
                    example.PodName example.viper_GetString example.fmt_Print
                    (example.newClient (example.polling example.stuckPending []))
                    (fun n => eq_refl))).
    intros n. reflexivity.
Defined.

(** C7: the code at the failing input.  The lister never finds the pod, so
    no lookup ever yields a Running pod and the loop should go on polling;
    instead it is over after its first iteration, ended by the nil pointer
    that line 57 reads through. *)
Lemma pollLoop_ends_without_running :
  let c := example.newClient (example.polling example.podNotFound []) in
  (forall n, observesRunning example.PodName example.viper_GetString c n = false) /\
  example.pollLoop 1 0 c =
  (Some (Panicked "invalid memory address or nil pointer dereference"), c,
   [Get 0%nat]).
Proof. cbn zeta. split; [intros n|]; reflexivity. Qed.

(** C8: the code at the failing input.  The lister does not find the pod
    and returns a nil pointer with the error; [PrintE2ELogs] drops the error
    and panics on [pod.Status.Phase] in its first iteration. *)
Example PrintE2ELogs_panics_on_missing_pod :
  let c := example.newClient (example.polling example.podNotFound []) in
  ListerGet (ClientSet c) (example.viper_GetString "namespace")
    example.PodName 0 = (None, Some "pod e2e-conformance-test not found") /\
  example.PrintE2ELogs 1 c =
  (Some (Panicked "invalid memory address or nil pointer dereference"), c,
   [Get 0%nat]).
Proof. cbn zeta. split; reflexivity. Qed.

End PrintE2ELogsRuns.

(** * Properties of [Configuration.Complete] *)

Section CompleteFacts.
Import types.

Variable loadConfiguration : string -> Configuration + error.
Variable Validate : Configuration -> option error.
Variable os_Getenv : string -> string.
Variable os_UserHomeDir : nat -> string + error.
Variable filepath_Join : list string -> string.

Local Abbreviation mergeFile := (types.mergeFile loadConfiguration).
Local Abbreviation defaultKubeconfig :=
  (types.defaultKubeconfig os_Getenv os_UserHomeDir filepath_Join).
Local Abbreviation expandTilde := (types.expandTilde os_UserHomeDir filepath_Join).
Local Abbreviation Complete :=
  (types.Complete loadConfiguration Validate os_Getenv os_UserHomeDir filepath_Join).
Local Abbreviation homeDirNonEmpty := (types.homeDirNonEmpty os_UserHomeDir).
Local Abbreviation joinNonEmpty := (types.joinNonEmpty filepath_Join).

Lemma Kubeconfig_assigned (v : string) (st : Store) :
  Kubeconfig (at_result (assign_result_Kubeconfig v st)) = v.
Proof.
  unfold at_result, assign_result_Kubeconfig.
  destruct (at_loaded st); reflexivity.
Qed.

Lemma defaultKubeconfig_non_empty (st st1 : Store) (calls calls1 : nat) :
  homeDirNonEmpty -> joinNonEmpty ->
  defaultKubeconfig st calls = (inl st1, calls1) ->
  Kubeconfig (at_result st1) <> "".
Proof.
  intros Hhome Hjoin. unfold types.defaultKubeconfig.
  destruct (String.eqb_spec (Kubeconfig (at_result st)) "") as [_|Hne].
  - destruct (String.eqb_spec (os_Getenv "KUBECONFIG") "") as [_|Henv]; cbn [negb].
    + destruct (os_UserHomeDir calls) as [homeDir|err] eqn:Hdir; [|discriminate].
      intros H. injection H as <- _. rewrite Kubeconfig_assigned.
      apply Hjoin. now apply (Hhome calls).
    + intros H. injection H as <- _. now rewrite Kubeconfig_assigned.
  - intros H. injection H as <- _. exact Hne.
Qed.

Lemma expandTilde_non_empty (st st2 : Store) (calls calls2 : nat) :
  homeDirNonEmpty -> joinNonEmpty ->
  Kubeconfig (at_result st) <> "" ->
  expandTilde st calls = (Ok st2, calls2) ->
  Kubeconfig (at_result st2) <> "".
Proof.
  intros Hhome Hjoin Hne. unfold types.expandTilde.
  destruct (HasPrefix_tilde (Kubeconfig (at_result st))).
  - destruct (os_UserHomeDir calls) as [homeDir|err] eqn:Hdir; [|discriminate].
    destruct (slice_from_1 (Kubeconfig (at_c st))); [|discriminate].
    intros H. injection H as <- _. rewrite Kubeconfig_assigned.
    apply Hjoin. now apply (Hhome calls).
  - intros H. injection H as <- _. exact Hne.
Qed.

(** C9.  When, after the configuration file has been merged, the kubeconfig
    path is empty, KUBECONFIG is unset or empty and the home directory cannot
    be determined, [Complete] returns that error, wrapped, after a single
    call of [os.UserHomeDir].  And whenever [Complete] succeeds, the
    Kubeconfig of the configuration it returns is not empty. *)
Theorem Complete_surfaces_home_directory_error (c : Configuration) (fs : FlagSet) :
  (forall st err,
     mergeFile c fs = inl st ->
     Kubeconfig (at_result st) = "" ->
     os_Getenv "KUBECONFIG" = "" ->
     os_UserHomeDir 0 = inr err ->
     Complete c fs =
     (Err (Errorf_w "failed to determine home directory: " err), 1%nat)) /\
  (homeDirNonEmpty -> joinNonEmpty ->
   forall st calls,
     Complete c fs = (Ok st, calls) ->
     Kubeconfig (at_result st) <> "").
Proof.
  split.
  - intros st err Hmerge Hempty Henv Hdir.
    unfold types.Complete, types.defaultKubeconfig.
    now rewrite Hmerge, Hempty, Henv, Hdir.
  - intros Hhome Hjoin st calls. unfold types.Complete.
    destruct (mergeFile c fs) as [st0|err]; [|discriminate].
    destruct (defaultKubeconfig st0 0) as [[st1|err] calls1] eqn:Hdef;
      [|discriminate].
    pose proof (defaultKubeconfig_non_empty _ _ _ _ Hhome Hjoin Hdef) as Hne.
    destruct (expandTilde st1 calls1) as [[st2|err|msg] calls2] eqn:Hexp;
      try discriminate.
    destruct (Validate (at_result st2)); [discriminate|].
    intros H. injection H as <- _.
    exact (expandTilde_non_empty _ _ _ _ Hhome Hjoin Hne Hexp).
Qed.

(** ** Further properties of [Complete] *)

Ltac by_cases_on_flags :=
  repeat match goal with
    | |- context [Changed ?fs ?name] => destruct (Changed fs name)
    | |- context [(?a =? ?b)%string] => destruct (a =? b)%string
    | |- context [?a =? ?b] => destruct (a =? b)
    end;
  cbn; try reflexivity.

(** X10.  How a configuration file and the command line are merged.  For
    every flag [AddFlags] registers, except [config], the field the flag is
    bound to ends up as follows: the file's value when the receiver's value
    is the zero value of its type (an empty string, 0, false, an empty
    slice), even if the flag was given; otherwise the receiver's value when
    the flag was given; otherwise the file's value, unless that is the zero
    value, in which case the receiver's. *)
Theorem mergeFile_precedence (c : Configuration) (fs : FlagSet)
  (loaded : Configuration) :
  configFile c <> "" ->
  loadConfiguration (configFile c) = inl loaded ->
  exists merged,
    mergeFile c fs = inl {| at_c := c; at_loaded := Some merged |} /\
    forall flag,
      In flag (AddFlags c) ->
      flagName flag <> "config" ->
      aboutField flag
        (fun T isZero p =>
           p merged =
           if isZero (p c) then p loaded
           else if Changed fs (flagName flag) then p c
           else if isZero (p loaded) then p c
           else p loaded).
Proof.
  intros Hfile Hload. unfold types.mergeFile.
  apply String.eqb_neq in Hfile. rewrite Hfile, Hload.
  eexists. split; [reflexivity|].
  intros flag Hin Hname. cbn [AddFlags In] in Hin.
  repeat (destruct Hin as [<-|Hin]); try contradiction;
    try (exfalso; apply Hname; reflexivity);
    cbn [aboutField flagName Kubeconfig Parallel Verbosity OutputDir Skip
           ConformanceImage BusyboxImage Namespace DryRun TestRepoList
           TestRepo StartupTimeout ExtraArgs ExtraGinkgoArgs];
    unfold overwrite, overwriteSlice; cbn [equal empty Comparable_string
                                            Comparable_int Comparable_bool].
  all: by_cases_on_flags.
  all: try (destruct (DryRun c), (DryRun loaded); reflexivity).
  all: try (destruct (ExtraArgs c), (ExtraArgs loaded); reflexivity).
  all: destruct (ExtraGinkgoArgs c), (ExtraGinkgoArgs loaded); reflexivity.
Qed.

(** X11.  [Complete] asks the flag set only about flags that [AddFlags]
    registers: two flag sets that agree on them give the same result. *)
Theorem Complete_reads_registered_flags_only (c : Configuration)
  (fs1 fs2 : FlagSet) :
  (forall flag,
     In flag (AddFlags c) ->
     Changed fs1 (flagName flag) = Changed fs2 (flagName flag)) ->
  Complete c fs1 = Complete c fs2.
Proof.
  intros Hagree.
  assert (Hname : forall name,
            In name (map flagName (AddFlags c)) ->
            Changed fs1 name = Changed fs2 name).
  { intros name Hin. apply in_map_iff in Hin as (flag & <- & Hin).
    now apply Hagree. }
  assert (Hmerge : mergeFile c fs1 = mergeFile c fs2).
  { unfold types.mergeFile, overwrite, overwriteSlice.
    repeat match goal with
      | |- context [Changed fs1 ?name] =>
          rewrite (Hname name) by (cbn; tauto)
      end.
    reflexivity. }
  unfold types.Complete. now rewrite Hmerge.
Qed.

Lemma set_Kubeconfig_same (c : Configuration) :
  set_Kubeconfig (Kubeconfig c) c = c.
Proof. now destruct c. Qed.

Lemma differsInKubeconfig_refl (st : Store) : differsInKubeconfig st st.
Proof.
  unfold differsInKubeconfig. destruct (at_loaded st) as [m|] eqn:Hl.
  - split; [reflexivity|]. exists (Kubeconfig m). now rewrite set_Kubeconfig_same.
  - split; [reflexivity|]. exists (Kubeconfig (at_c st)).
    now rewrite set_Kubeconfig_same.
Qed.

Lemma differsInKubeconfig_assign (v : string) (st0 st : Store) :
  differsInKubeconfig st0 st ->
  differsInKubeconfig st0 (assign_result_Kubeconfig v st).
Proof.
  unfold differsInKubeconfig, assign_result_Kubeconfig.
  destruct (at_loaded st0) as [m|].
  - intros [Hc (k & Hl)]. rewrite Hl. cbn. split; [exact Hc|]. now exists v.
  - intros [Hl (k & Hc)]. rewrite Hl. cbn. split; [reflexivity|].
    exists v. now rewrite Hc.
Qed.

Lemma defaultKubeconfig_differs (st0 st st1 : Store) (calls calls1 : nat) :
  differsInKubeconfig st0 st ->
  defaultKubeconfig st calls = (inl st1, calls1) ->
  differsInKubeconfig st0 st1.
Proof.
  intros Hd. unfold types.defaultKubeconfig.
  destruct (Kubeconfig (at_result st) =? "")%string.
  - destruct (negb (os_Getenv "KUBECONFIG" =? "")%string).
    + intros H. injection H as <- _. now apply differsInKubeconfig_assign.
    + destruct (os_UserHomeDir calls); [|discriminate].
      intros H. injection H as <- _. now apply differsInKubeconfig_assign.
  - intros H. injection H as <- _. exact Hd.
Qed.

Lemma expandTilde_differs (st0 st st2 : Store) (calls calls2 : nat) :
  differsInKubeconfig st0 st ->
  expandTilde st calls = (Ok st2, calls2) ->
  differsInKubeconfig st0 st2.
Proof.
  intros Hd. unfold types.expandTilde.
  destruct (HasPrefix_tilde (Kubeconfig (at_result st))).
  - destruct (os_UserHomeDir calls); [|discriminate].
    destruct (slice_from_1 (Kubeconfig (at_c st))); [|discriminate].
    intros H. injection H as <- _. now apply differsInKubeconfig_assign.
  - intros H. injection H as <- _. exact Hd.
Qed.

(** What the merge leaves in the store. *)
Lemma mergeFile_store (c : Configuration) (fs : FlagSet) (st : Store) :
  mergeFile c fs = inl st ->
  at_c st = c /\
  ((configFile c = "" /\ at_loaded st = None) \/
   (configFile c <> "" /\ exists merged, at_loaded st = Some merged)).
Proof.
  unfold types.mergeFile.
  destruct (String.eqb_spec (configFile c) "") as [Hempty|Hfile].
  - intros H. injection H as <-. split; [reflexivity|]. left. now split.
  - destruct (loadConfiguration (configFile c)); [|discriminate].
    intros H. injection H as <-. split; [reflexivity|]. right.
    split; [exact Hfile|]. eexists. reflexivity.
Qed.

(** X12.  Whenever [Complete] succeeds, the Kubeconfig is the only thing it
    has written.  Without a configuration file it returns the receiver,
    changed at most in its Kubeconfig.  With one it returns the merged
    configuration, changed at most in its Kubeconfig, and the receiver is
    exactly as it was. *)
Theorem Complete_writes_only_Kubeconfig
  (c : Configuration) (fs : FlagSet) (st : Store) (calls : nat) :
  Complete c fs = (Ok st, calls) ->
  (configFile c = "" ->
   at_loaded st = None /\ exists k, at_c st = set_Kubeconfig k c) /\
  (configFile c <> "" ->
   at_c st = c /\
   exists merged k,
     mergeFile c fs = inl {| at_c := c; at_loaded := Some merged |} /\
     at_loaded st = Some (set_Kubeconfig k merged)).
Proof.
  unfold types.Complete.
  destruct (mergeFile c fs) as [st0|err] eqn:Hmerge; [|discriminate].
  destruct (defaultKubeconfig st0 0) as [[st1|err] calls1] eqn:Hdef;
    [|discriminate].
  destruct (expandTilde st1 calls1) as [[st2|err|msg] calls2] eqn:Hexp;
    try discriminate.
  destruct (Validate (at_result st2)); [discriminate|].
  intros H. injection H as <- _.
  pose proof (expandTilde_differs st0 st1 st2 _ _
                (defaultKubeconfig_differs st0 st0 st1 _ _
                   (differsInKubeconfig_refl st0) Hdef) Hexp) as Hd.
  destruct (mergeFile_store c fs st0 Hmerge) as [Hc Hcases].
  unfold differsInKubeconfig in Hd.
  destruct Hcases as [[Hempty Hnone]|[Hfile (merged & Hsome)]].
  - rewrite Hnone, Hc in Hd. split; [intros _; exact Hd|contradiction].
  - rewrite Hsome, Hc in Hd. split; [contradiction|]. intros _.
    destruct Hd as [Hatc (k & Hl)]. split; [exact Hatc|].
    exists merged, k. split; [|exact Hl].
    destruct st0 as [c0 l0]. cbn in Hc, Hsome. now subst.
Qed.

Lemma HasPrefix_tilde_non_empty (s : string) :
  HasPrefix_tilde s = true -> slice_from_1 s <> None.
Proof. destruct s; [discriminate|]. discriminate. Qed.

(** X13.  [Complete] panics only when a configuration file is given and the
    receiver's own Kubeconfig is empty: the tilde path of the merged
    configuration is then expanded from the receiver's field.  Without a
    configuration file it never panics. *)
Theorem Complete_panics_only_with_config_file
  (c : Configuration) (fs : FlagSet) (msg : string) (calls : nat) :
  Complete c fs = (Panic msg, calls) ->
  configFile c <> "" /\ Kubeconfig c = "".
Proof.
  unfold types.Complete.
  destruct (mergeFile c fs) as [st0|err] eqn:Hmerge; [|discriminate].
  destruct (defaultKubeconfig st0 0) as [[st1|err] calls1] eqn:Hdef;
    [|discriminate].
  pose proof (defaultKubeconfig_differs st0 st0 st1 _ _
                (differsInKubeconfig_refl st0) Hdef) as Hd.
  destruct (mergeFile_store c fs st0 Hmerge) as [Hc Hcases].
  destruct (expandTilde st1 calls1) as [[st2|err|msg'] calls2] eqn:Hexp;
    try discriminate.
  { destruct (Validate (at_result st2)); discriminate. }
  intros _. unfold types.expandTilde in Hexp.
  destruct (HasPrefix_tilde (Kubeconfig (at_result st1))) eqn:Hprefix;
    [|discriminate].
  destruct (os_UserHomeDir calls1); [|discriminate].
  destruct (slice_from_1 (Kubeconfig (at_c st1))) eqn:Hslice; [discriminate|].
  unfold differsInKubeconfig in Hd.
  destruct Hcases as [[Hempty Hnone]|[Hfile (merged & Hsome)]].
  - rewrite Hnone in Hd. destruct Hd as [Hl1 _].
    unfold at_result in Hprefix. rewrite Hl1 in Hprefix.
    now apply HasPrefix_tilde_non_empty in Hprefix.
  - rewrite Hsome in Hd. destruct Hd as [Hatc _]. split; [exact Hfile|].
    rewrite Hatc, Hc in Hslice. now destruct (Kubeconfig c).
Qed.

(** X14.  Where [Complete] can fail.  It calls [os.UserHomeDir] at most
    twice, and an error it returns is the error of loading the
    configuration file, or the error of a call of [os.UserHomeDir] wrapped
    as ['failed to determine home directory'], or the error of [Validate]
    wrapped as ['invalid configuration']. *)
Theorem Complete_error_sources (c : Configuration) (fs : FlagSet) :
  (snd (Complete c fs) <= 2)%nat /\
  forall err calls,
    Complete c fs = (Err err, calls) ->
    (calls = O /\ configFile c <> "" /\
     loadConfiguration (configFile c) = inr err) \/
    (exists k err0,
       calls = S k /\ os_UserHomeDir k = inr err0 /\
       err = Errorf_w "failed to determine home directory: " err0) \/
    (exists cfg err0,
       Validate cfg = Some err0 /\
       err = Errorf_w "invalid configuration: " err0).
Proof.
  unfold types.Complete, types.mergeFile.
  destruct (String.eqb_spec (configFile c) "") as [Hempty|Hfile].
  all: match goal with
       | |- context [loadConfiguration ?f] =>
           destruct (loadConfiguration f) as [loaded|lerr] eqn:Hload
       | _ => idtac
       end.
  all: try (split; [cbn; lia|]; intros err calls H; injection H as <- <-;
            left; repeat split; assumption).
  all: match goal with
       | |- context [defaultKubeconfig ?st 0] =>
           set (st0 := st);
           unfold types.defaultKubeconfig, types.expandTilde;
           destruct (Kubeconfig (at_result st0) =? "")%string;
           [destruct (negb (os_Getenv "KUBECONFIG" =? "")%string);
            [|destruct (os_UserHomeDir 0) as [home0|herr0] eqn:Hhome0]|]
       end.
  all: repeat match goal with
         | |- context [HasPrefix_tilde ?s] => destruct (HasPrefix_tilde s)
         | |- context [os_UserHomeDir ?k] =>
             destruct (os_UserHomeDir k) as [?home|?herr] eqn:?Hhome
         | |- context [slice_from_1 ?s] => destruct (slice_from_1 s)
         | |- context [Validate ?cfg] =>
             destruct (Validate cfg) as [?verr|] eqn:?Hvalid
         end.
  all: split; [cbn; lia|]; intros err calls H; try discriminate;
    injection H as <- <-.
  all: try (right; left; eexists _, _;
            split; [reflexivity|split; [eassumption|reflexivity]]).
  all: right; right; eexists _, _; split; [eassumption|reflexivity].
Qed.

(** X15.  The comment in [Complete] holds: the home directory is looked up
    only if it is needed.  When the kubeconfig path is given, by the merged
    configuration or else by KUBECONFIG, and does not begin with a tilde,
    [Complete] never calls [os.UserHomeDir], so its result is the same on a
    system where no home is configured. *)
Theorem Complete_needs_no_home_for_given_path
  (home1 home2 : nat -> string + error)
  (c : Configuration) (fs : FlagSet) (st : Store) :
  mergeFile c fs = inl st ->
  (let path := if (Kubeconfig (at_result st) =? "")%string
               then os_Getenv "KUBECONFIG" else Kubeconfig (at_result st) in
   path <> "" /\ HasPrefix_tilde path = false) ->
  types.Complete loadConfiguration Validate os_Getenv home1 filepath_Join c fs =
  types.Complete loadConfiguration Validate os_Getenv home2 filepath_Join c fs /\
  snd (types.Complete loadConfiguration Validate os_Getenv home1 filepath_Join c fs)
  = O.
Proof.
  intros Hmerge Hpath. cbn zeta in Hpath.
  unfold types.Complete, types.defaultKubeconfig, types.expandTilde.
  rewrite Hmerge.
  destruct (Kubeconfig (at_result st) =? "")%string.
  - destruct Hpath as [Hne Hprefix]. apply String.eqb_neq in Hne.
    rewrite Hne. cbn [negb]. rewrite Kubeconfig_assigned, Hprefix.
    destruct (Validate _); now split.
  - destruct Hpath as [_ Hprefix]. rewrite Hprefix.
    destruct (Validate _); now split.
Qed.

End CompleteFacts.

(** * Properties of [resolveKubeconfig] *)

Section ResolveFacts.
Import types.

Variable loadConfiguration : string -> Configuration + error.
Variable Validate : Configuration -> option error.
Variable os_Getenv : string -> string.
Variable os_UserHomeDir : nat -> string + error.
Variable filepath_Join : list string -> string.

Local Abbreviation resolveDefault :=
  (types.resolveDefault os_Getenv os_UserHomeDir filepath_Join).
Local Abbreviation resolveKubeconfig :=
  (types.resolveKubeconfig os_Getenv os_UserHomeDir filepath_Join).
Local Abbreviation Complete :=
  (types.Complete loadConfiguration Validate os_Getenv os_UserHomeDir filepath_Join).
Local Abbreviation joinNonEmpty := (types.joinNonEmpty filepath_Join).
Local Abbreviation plainHome := (types.plainHome os_UserHomeDir).

(** X16.  [resolveKubeconfig] fails only when a call of [os.UserHomeDir]
    fails: the error it returns is that error, wrapped, and the path
    returned with it is empty.  It calls [os.UserHomeDir] at most twice. *)
Theorem resolveKubeconfig_error_sources (kubeconfig : string) :
  (snd (resolveKubeconfig kubeconfig) <= 2)%nat /\
  forall path err calls,
    resolveKubeconfig kubeconfig = ((path, Some err), calls) ->
    path = "" /\
    exists k err0,
      calls = S k /\ os_UserHomeDir k = inr err0 /\
      err = Errorf_w "failed to determine home directory: " err0.
Proof.
  unfold types.resolveKubeconfig, types.resolveDefault.
  destruct (kubeconfig =? "")%string;
    [destruct (negb (os_Getenv "KUBECONFIG" =? "")%string);
     [|destruct (os_UserHomeDir 0) as [home0|err0] eqn:Hhome0]|].
  all: repeat match goal with
         | |- context [HasPrefix_tilde ?s] => destruct (HasPrefix_tilde s)
         | |- context [os_UserHomeDir ?k] =>
             destruct (os_UserHomeDir k) as [?home|?herr] eqn:?Hhome
         end.
  all: split; [cbn; lia|]; intros path err calls H; try discriminate;
    injection H as Hp He Hc; subst path err calls.
  all: split; [reflexivity|]; eexists _, _;
    split; [reflexivity|split; [eassumption|reflexivity]].
Qed.

Ltac simpl_store :=
  cbn [types.assign_result_Kubeconfig types.at_loaded types.at_result
         types.at_c types.set_Kubeconfig types.Kubeconfig].

Lemma HasPrefix_tilde_cons (s : string) :
  HasPrefix_tilde s = true -> exists rest, s = String "~" rest.
Proof.
  unfold HasPrefix_tilde. destruct s as [|a rest]; [discriminate|].
  cbn [String.prefix].
  destruct (ascii_dec "~" a) as [<-|]; [|discriminate]. now exists rest.
Qed.

Lemma HasPrefix_tilde_app (home rest : string) :
  home <> "" ->
  HasPrefix_tilde (home ++ rest) = HasPrefix_tilde home.
Proof.
  destruct home as [|a home]; [contradiction|]. intros _.
  unfold HasPrefix_tilde. cbn [String.prefix String.append].
  destruct (ascii_dec "~" a); [|reflexivity].
  transitivity true; [now destruct (home ++ rest)%string|now destruct home].
Qed.

Lemma prefix_append (home rest : string) :
  String.prefix home (home ++ rest) = true.
Proof.
  induction home as [|a home IH]; [now destruct rest|].
  cbn [String.prefix String.append].
  destruct (ascii_dec a a) as [_|Hne]; [exact IH|contradiction].
Qed.

(** X17.  Resolving is idempotent.  Provided a home directory is never empty
    and never begins with a tilde, and a joined path is never empty, a path
    that [resolveKubeconfig] returns is returned unchanged when it is
    resolved again, and that second call makes no call of
    [os.UserHomeDir]. *)
Theorem resolveKubeconfig_idempotent (kubeconfig resolved : string) (calls : nat) :
  plainHome -> joinNonEmpty ->
  resolveKubeconfig kubeconfig = ((resolved, None), calls) ->
  resolveKubeconfig resolved = ((resolved, None), O).
Proof.
  intros Hhome Hjoin Hres.
  assert (Hfinal : resolved <> "" /\ HasPrefix_tilde resolved = false).
  { revert Hres. unfold types.resolveKubeconfig, types.resolveDefault.
    assert (Hexpand : forall path home n,
              path <> "" -> os_UserHomeDir n = inl home ->
              HasPrefix_tilde path = true ->
              ReplaceAll path "~" home <> "" /\
              HasPrefix_tilde (ReplaceAll path "~" home) = false).
    { intros path home n _ Hn Hprefix.
      destruct (Hhome n home Hn) as [Hne Hplain].
      apply HasPrefix_tilde_cons in Hprefix as (rest & ->).
      cbn [ReplaceAll]. rewrite Ascii.eqb_refl.
      rewrite HasPrefix_tilde_app by exact Hne. split; [|exact Hplain].
      destruct home; [contradiction|discriminate]. }
    assert (Hstage : forall path n,
              path <> "" ->
              (if HasPrefix_tilde path
               then match os_UserHomeDir n with
                    | inl homeDir => ((ReplaceAll path "~" homeDir, None), S n)
                    | inr err =>
                        (("", Some (Errorf_w "failed to determine home directory: " err)),
                         S n)
                    end
               else ((path, None), n)) = ((resolved, None), calls) ->
              resolved <> "" /\ HasPrefix_tilde resolved = false).
    { intros path n Hne.
      destruct (HasPrefix_tilde path) eqn:Hprefix.
      - destruct (os_UserHomeDir n) as [home|err] eqn:Hn; [|discriminate].
        intros H. injection H as <- _. now apply (Hexpand path home n).
      - intros H. injection H as <- _. now split. }
    destruct (String.eqb_spec kubeconfig "") as [_|Hne].
    - destruct (String.eqb_spec (os_Getenv "KUBECONFIG") "") as [_|Henv]; cbn [negb].
      + destruct (os_UserHomeDir 0) as [home0|err0] eqn:Hhome0; [|discriminate].
        apply Hstage. apply Hjoin. now apply (Hhome 0%nat).
      + now apply Hstage.
    - now apply Hstage. }
  destruct Hfinal as [Hne Hplain].
  unfold types.resolveKubeconfig, types.resolveDefault.
  apply String.eqb_neq in Hne. now rewrite Hne, Hplain.
Qed.

Lemma list_ascii_of_string_app (a b : string) :
  list_ascii_of_string (a ++ b) = list_ascii_of_string a ++ list_ascii_of_string b.
Proof. induction a as [|x a IH]; [reflexivity|]. cbn. now rewrite IH. Qed.

Lemma ReplaceAll_removes (s : string) (old : ascii) (new : string) :
  ~ In old (list_ascii_of_string new) ->
  ~ In old (list_ascii_of_string (ReplaceAll s old new)).
Proof.
  intros Hnew. induction s as [|a s IH]; [intros []|].
  cbn [ReplaceAll]. destruct (Ascii.eqb_spec a old) as [->|Hne].
  - rewrite list_ascii_of_string_app. intros Hin.
    apply in_app_or in Hin as [Hin|Hin]; contradiction.
  - cbn. intros [Heq|Hin]; [now apply Hne|contradiction].
Qed.

(** X18.  When the path to resolve, given as the argument or else by
    KUBECONFIG, begins with a tilde and the home directory is found,
    [resolveKubeconfig] replaces every tilde of the path, not only the
    leading one, by the home directory: the result begins with the home
    directory and, if the home directory contains no tilde, neither does
    the result. *)
Theorem resolveKubeconfig_expands_every_tilde (kubeconfig homeDir : string) :
  let path := if (kubeconfig =? "")%string
              then os_Getenv "KUBECONFIG" else kubeconfig in
  HasPrefix_tilde path = true ->
  os_UserHomeDir O = inl homeDir ->
  resolveKubeconfig kubeconfig = ((ReplaceAll path "~" homeDir, None), 1%nat) /\
  String.prefix homeDir (ReplaceAll path "~" homeDir) = true /\
  (~ In "~"%char (list_ascii_of_string homeDir) ->
   ~ In "~"%char (list_ascii_of_string (ReplaceAll path "~" homeDir))).
Proof.
  cbn zeta. intros Hprefix Hhome. split; [|split].
  - unfold types.resolveKubeconfig, types.resolveDefault.
    destruct (kubeconfig =? "")%string.
    + destruct (String.eqb_spec (os_Getenv "KUBECONFIG") "") as [Hempty|_].
      * rewrite Hempty in Hprefix. discriminate.
      * cbn [negb]. now rewrite Hprefix, Hhome.
    + now rewrite Hprefix, Hhome.
  - apply HasPrefix_tilde_cons in Hprefix as (rest & ->).
    cbn [ReplaceAll]. rewrite Ascii.eqb_refl. apply prefix_append.
  - apply ReplaceAll_removes.
Qed.

(** X19.  Without a configuration file, [Complete] and [resolveKubeconfig]
    agree.  They fail together, with the same error after the same number
    of calls of [os.UserHomeDir].  And when no tilde is involved (neither the
    receiver's Kubeconfig, nor KUBECONFIG, nor the joined default path begins
    with one) and the configuration is valid, the Kubeconfig [Complete]
    returns is the path [resolveKubeconfig] returns for the receiver's
    Kubeconfig. *)
Theorem Complete_agrees_with_resolveKubeconfig (c : Configuration) (fs : FlagSet) :
  configFile c = "" ->
  (forall path err calls,
     resolveKubeconfig (Kubeconfig c) = ((path, Some err), calls) ->
     Complete c fs = (Err err, calls)) /\
  (HasPrefix_tilde (Kubeconfig c) = false ->
   HasPrefix_tilde (os_Getenv "KUBECONFIG") = false ->
   (forall homeDir,
      os_UserHomeDir O = inl homeDir ->
      HasPrefix_tilde (filepath_Join [homeDir; ".kube"; "config"]) = false) ->
   forall path calls,
     resolveKubeconfig (Kubeconfig c) = ((path, None), calls) ->
     Validate (set_Kubeconfig path c) = None ->
     Complete c fs =
     (Ok {| at_c := set_Kubeconfig path c; at_loaded := None |}, calls)).
Proof.
  intros Hfile.
  unfold types.Complete, types.mergeFile, types.defaultKubeconfig,
    types.expandTilde, types.resolveKubeconfig, types.resolveDefault.
  rewrite Hfile. cbn [String.eqb].
  split.
  - intros path err calls.
    destruct (String.eqb_spec (Kubeconfig c) "") as [Hempty|Hne]; simpl_store.
    + rewrite Hempty; cbn [String.eqb].
      destruct (negb (os_Getenv "KUBECONFIG" =? "")%string); simpl_store;
        rewrite ?Kubeconfig_assigned.
      * destruct (HasPrefix_tilde (os_Getenv "KUBECONFIG")); [|discriminate].
        destruct (os_UserHomeDir 0); [discriminate|].
        intros H. now injection H as _ <- <-.
      * destruct (os_UserHomeDir 0) as [home0|err0]; simpl_store;
          rewrite ?Kubeconfig_assigned.
        -- destruct (HasPrefix_tilde (filepath_Join [home0; ".kube"; "config"]));
             [|discriminate].
           destruct (os_UserHomeDir 1); [discriminate|].
           intros H. now injection H as _ <- <-.
        -- intros H. now injection H as _ <- <-.
    + apply String.eqb_neq in Hne. rewrite Hne. simpl_store.
      destruct (HasPrefix_tilde (Kubeconfig c)); [|discriminate].
      destruct (os_UserHomeDir 0); [discriminate|].
      intros H. now injection H as _ <- <-.
  - intros Hk Henv Hjoin path calls.
    destruct (String.eqb_spec (Kubeconfig c) "") as [Hempty|Hne]; simpl_store.
    + rewrite Hempty; cbn [String.eqb].
      destruct (negb (os_Getenv "KUBECONFIG" =? "")%string); simpl_store;
        rewrite ?Kubeconfig_assigned.
      * rewrite Henv. intros H. injection H as <- <-. intros Hv. simpl_store. now rewrite Hv.
      * destruct (os_UserHomeDir 0) as [home0|err0]; [|discriminate].
        simpl_store. rewrite ?Kubeconfig_assigned. rewrite (Hjoin home0 eq_refl). intros H. injection H as <- <-.
        intros Hv. simpl_store. now rewrite Hv.
    + apply String.eqb_neq in Hne. rewrite Hne. simpl_store. rewrite Hk.
      intros H. injection H as <- <-. rewrite set_Kubeconfig_same.
      intros Hv. simpl_store. now rewrite Hv.
Qed.

End ResolveFacts.

(** ** [Complete] in concrete environments *)

Section CompleteRuns.
Import types.

Lemma joinWithSlash_non_empty :
  joinNonEmpty example_config.joinWithSlash.
Proof.
  intros homeDir rest Hne. unfold example_config.joinWithSlash.
  destruct homeDir; [contradiction|]. destruct rest; cbn; discriminate.
Qed.

Lemma Complete_surfaces_home_directory_error_witness :
  Complete example_config.noConfigFile example_config.valid
    example_config.emptyEnvironment example_config.noHome
    example_config.joinWithSlash
    example_config.defaults example_config.noFlags =
  (Err "failed to determine home directory: $HOME is not defined", 1%nat) /\
  (forall st calls,
     Complete example_config.noConfigFile example_config.valid
       example_config.emptyEnvironment example_config.homeOfUser
       example_config.joinWithSlash
       example_config.defaults example_config.noFlags = (Ok st, calls) ->
     Kubeconfig (at_result st) <> "").
Proof.
  split.
  - apply (proj1 (Complete_surfaces_home_directory_error
                    example_config.noConfigFile example_config.valid
                    example_config.emptyEnvironment example_config.noHome
                    example_config.joinWithSlash
                    example_config.defaults example_config.noFlags)
             {| at_c := example_config.defaults; at_loaded := None |}
             "$HOME is not defined");
      reflexivity.
  - apply (proj2 (Complete_surfaces_home_directory_error
                    example_config.noConfigFile example_config.valid
                    example_config.emptyEnvironment example_config.homeOfUser
                    example_config.joinWithSlash
                    example_config.defaults example_config.noFlags)).
    + intros n homeDir H. injection H as <-. discriminate.
    + exact joinWithSlash_non_empty.
Defined.

(** With a home directory, the default path is filled in. *)
Example Complete_defaults_to_home :
  Complete example_config.noConfigFile example_config.valid
    example_config.emptyEnvironment example_config.homeOfUser
    example_config.joinWithSlash
    example_config.defaults example_config.noFlags =
  (Ok {| at_c := set_Kubeconfig "/home/user/.kube/config" example_config.defaults;
         at_loaded := None |},
   1%nat).
Proof. reflexivity. Qed.

(** A tilde path that comes from the configuration file is expanded from
    the receiver's field, which is empty when no flag was given. *)
Example Complete_tilde_from_file :
  Complete example_config.tildeConfigFile example_config.valid
    example_config.emptyEnvironment example_config.homeOfUser
    example_config.joinWithSlash
    (example_config.withConfigFile "hydrophone.yaml") example_config.noFlags =
  (Panic "slice bounds out of range [1:0]", 1%nat).
Proof. reflexivity. Qed.

End CompleteRuns.

(** ** The registered flags and the merge *)

Section FlagFacts.
Import types.

(** X20.  With a configuration file, dry-run is on as soon as either the
    file or the command line turns it on, whether or not the flag was given:
    the command line cannot switch off a dry run that the file asks for. *)
Theorem mergeFile_DryRun_is_disjunction
  (loadConfiguration : string -> Configuration + error)
  (c : Configuration) (fs : FlagSet) (loaded : Configuration) (st : Store) :
  configFile c <> "" ->
  loadConfiguration (configFile c) = inl loaded ->
  mergeFile loadConfiguration c fs = inl st ->
  DryRun (at_result st) = DryRun c || DryRun loaded.
Proof.
  intros Hfile Hload. unfold mergeFile.
  apply String.eqb_neq in Hfile. rewrite Hfile, Hload.
  intros H. injection H as <-. cbn [at_result at_loaded DryRun].
  unfold overwrite. cbn [equal empty Comparable_bool].
  destruct (DryRun c), (DryRun loaded), (Changed fs "dry-run"); reflexivity.
Qed.

(** X21.  No other registered flag is ignored.  For every flag [AddFlags]
    registers, except [config] and [dry-run], there are a configuration file
    and a receiver for which it makes a difference to the merged
    configuration whether that flag was given. *)
Theorem registered_flag_is_honoured (c0 : Configuration) (flag : Flag) :
  In flag (AddFlags c0) ->
  flagName flag <> "config" ->
  flagName flag <> "dry-run" ->
  exists loadConfiguration c,
    mergeFile loadConfiguration c (changedFlags []) <>
    mergeFile loadConfiguration c (changedFlags [flagName flag]).
Proof.
  intros Hin Hconfig Hdry.
  exists example_config.loadsFromFile, example_config.fromFlags.
  cbn [AddFlags In] in Hin.
  repeat (destruct Hin as [<-|Hin]); try contradiction;
    try (exfalso; apply Hconfig; reflexivity);
    try (exfalso; apply Hdry; reflexivity);
    cbn [flagName]; vm_compute; intros H; discriminate H.
Qed.

End FlagFacts.

(** ** The further properties on concrete inputs *)

Section FurtherRuns.
Import v1 watch client.

Lemma FetchExitCode_terminal_phase_stops_witness :
  let c := example.newClient (example.watching example.evicted true) in
  let r := example.FetchExitCode c in
  result r = Returned None /\
  received (trace r) =
    [example.snapshot PodPending []] ++ [example.snapshot PodFailed []] /\
  stores (trace r) = [] /\
  ExitCode (receiver r) = ExitCode c.
Proof.
  cbn zeta.
  destruct (FetchExitCode_terminal_phase_stops
              example.PodName example.ConformanceContainer example.viper_GetString
              (example.newClient (example.watching example.evicted true))
              {| delivered := example.evicted; closes := true |}
              [example.snapshot PodPending []] []
              (example.snapshot PodFailed []) (example.podWith PodFailed [])
              eq_refl eq_refl eq_refl eq_refl (or_intror eq_refl))
    as (Ho & Hr & Hkeep).
  destruct (Hkeep eq_refl) as [Hs He].
  repeat split; assumption.
Defined.

Lemma FetchExitCode_decided_by_first_stop_witness :
  let c := example.newClient (example.watching example.sidecarFirst false) in
  example.FetchExitCode c =
  (Returned None, c,
   [ Log "Waiting for Pod to terminate...";
     Recv (example.snapshot PodRunning
             [example.exited example.OutputContainer 0;
              example.active example.ConformanceContainer]);
     Log "Container output-container terminated." ]).
Proof.
  exact (FetchExitCode_decided_by_first_stop
           example.PodName example.ConformanceContainer example.viper_GetString
           (example.newClient (example.watching example.sidecarFirst false))
           {| delivered := example.sidecarFirst; closes := false |}
           [] (skipn 1 example.sidecarFirst)
           (example.snapshot PodRunning
              [example.exited example.OutputContainer 0;
               example.active example.ConformanceContainer])
           eq_refl eq_refl eq_refl eq_refl).
Defined.

Lemma FetchExitCode_blocks_iff_witness :
  result (example.FetchExitCode
            (example.newClient
               (example.watching [example.snapshot PodPending []] false)))
  = Blocked.
Proof.
  apply (proj2 (proj1 (FetchExitCode_blocks_iff
                         example.PodName example.ConformanceContainer
                         example.viper_GetString
                         (example.newClient
                            (example.watching [example.snapshot PodPending []] false))
                         {| delivered := [example.snapshot PodPending []];
                            closes := false |}
                         eq_refl))).
  split; reflexivity.
Defined.

Lemma startsAfterTwoPolls_firstRunningAt (signals : list Signal) :
  firstRunningAt example.PodName example.viper_GetString
    (example.newClient (example.polling example.startsAfterTwoPolls signals)) 2.
Proof.
  split; [|reflexivity].
  intros j Hj. destruct j as [|[|j]]; [now split|now split|lia].
Defined.

Lemma PrintE2ELogs_prints_lines_until_done_witness :
  let c := example.newClient
             (example.polling example.startsAfterTwoPolls
                [logCh "a"; logCh "b"; doneCh true; logCh "late"]) in
  example.PrintE2ELogs 3 c =
  (Some (Returned None), c,
   map Get (seq 0 3) ++ flat_map lineSteps ["a"; "b"] ++ [Select (doneCh true)]).
Proof.
  apply (PrintE2ELogs_prints_lines_until_done
           example.PodName example.viper_GetString example.fmt_Print
           3 2 _ ["a"; "b"] true [logCh "late"]).
  - reflexivity.
  - apply startsAfterTwoPolls_firstRunningAt.
  - lia.
  - reflexivity.
  - intros line _. reflexivity.
Defined.

Lemma PrintE2ELogs_print_error_is_fatal_witness :
  let c := example.newClient
             (example.polling example.startsAfterTwoPolls
                [logCh "a"; logCh "b"; logCh "c"]) in
  client.PrintE2ELogs example.PodName example.viper_GetString
    (example.printFailsOn "b") 7 c =
  (Some (Fatal "write /dev/stdout: broken pipe"), c,
   map Get (seq 0 3) ++ flat_map lineSteps ["a"] ++ lineSteps "b").
Proof.
  apply (PrintE2ELogs_print_error_is_fatal
           example.PodName example.viper_GetString (example.printFailsOn "b")
           7 2 _ ["a"] "b" "write /dev/stdout: broken pipe" [logCh "c"]).
  - reflexivity.
  - apply startsAfterTwoPolls_firstRunningAt.
  - lia.
  - reflexivity.
  - intros line [<-|[]]. reflexivity.
  - reflexivity.
Defined.

Lemma PrintE2ELogs_waits_without_done_witness :
  let c := example.newClient
             (example.polling example.startsAfterTwoPolls [logCh "a"]) in
  example.PrintE2ELogs 4 c =
  (Some Blocked, c, map Get (seq 0 3) ++ flat_map lineSteps ["a"]).
Proof.
  apply (PrintE2ELogs_waits_without_done
           example.PodName example.viper_GetString example.fmt_Print
           4 2 _ ["a"]).
  - reflexivity.
  - apply startsAfterTwoPolls_firstRunningAt.
  - lia.
  - reflexivity.
  - intros line _. reflexivity.
Defined.

End FurtherRuns.

Section FurtherConfigRuns.
Import types.

Lemma fromFlags_has_config_file : configFile example_config.fromFlags <> "".
Proof. discriminate. Defined.

Lemma mergeFile_precedence_witness :
  exists merged,
    mergeFile example_config.loadsFromFile example_config.fromFlags
      (changedFlags ["skip"]) =
    inl {| at_c := example_config.fromFlags; at_loaded := Some merged |} /\
    Skip merged = "flag-skip" /\
    Namespace merged = "file-ns".
Proof.
  destruct (mergeFile_precedence example_config.loadsFromFile
              example_config.fromFlags (changedFlags ["skip"])
              example_config.fromFile fromFlags_has_config_file eq_refl)
    as (merged & Hmerge & Hfields).
  exists merged. split; [exact Hmerge|]. split.
  - apply (Hfields (StringVar Skip "skip" (Skip example_config.fromFlags)
                      "skip specific tests. allows regular expressions.")).
    + cbn. tauto.
    + discriminate.
  - apply (Hfields (StringVar Namespace "namespace"
                      (Namespace example_config.fromFlags)
                      "the namespace where the conformance pod is created.")).
    + cbn. tauto.
    + discriminate.
Defined.

Lemma Complete_reads_registered_flags_only_witness :
  Complete example_config.loadsFromFile example_config.valid
    example_config.emptyEnvironment example_config.homeOfUser
    example_config.joinWithSlash
    example_config.fromFlags (changedFlags ["skip"]) =
  Complete example_config.loadsFromFile example_config.valid
    example_config.emptyEnvironment example_config.homeOfUser
    example_config.joinWithSlash
    example_config.fromFlags (changedFlags ["skip"; "no-such-flag"]).
Proof.
  apply Complete_reads_registered_flags_only.
  intros flag Hin. cbn [AddFlags In] in Hin.
  repeat (destruct Hin as [<-|Hin]); try contradiction; reflexivity.
Defined.

Lemma Complete_writes_only_Kubeconfig_witness :
  exists k,
    set_Kubeconfig "/home/user/.kube/config" example_config.defaults =
    set_Kubeconfig k example_config.defaults.
Proof.
  destruct (Complete_writes_only_Kubeconfig
              example_config.noConfigFile example_config.valid
              example_config.emptyEnvironment example_config.homeOfUser
              example_config.joinWithSlash
              example_config.defaults example_config.noFlags
              {| at_c := set_Kubeconfig "/home/user/.kube/config"
                           example_config.defaults;
                 at_loaded := None |}
              1 eq_refl) as [Hnone _].
  destruct (Hnone eq_refl) as [_ Hk]. exact Hk.
Defined.

Lemma Complete_panics_only_with_config_file_witness :
  configFile (example_config.withConfigFile "hydrophone.yaml") <> "" /\
  Kubeconfig (example_config.withConfigFile "hydrophone.yaml") = "".
Proof.
  exact (Complete_panics_only_with_config_file
           example_config.tildeConfigFile example_config.valid
           example_config.emptyEnvironment example_config.homeOfUser
           example_config.joinWithSlash
           (example_config.withConfigFile "hydrophone.yaml")
           example_config.noFlags
           "slice bounds out of range [1:0]" 1 eq_refl).
Defined.

Lemma Complete_error_sources_witness :
  (exists k err0,
     1%nat = S k /\ example_config.noHome k = inr err0 /\
     "failed to determine home directory: $HOME is not defined" =
     Errorf_w "failed to determine home directory: " err0) /\
  (exists cfg err0,
     example_config.invalid cfg = Some err0 /\
     "invalid configuration: parallel must be at least 1" =
     Errorf_w "invalid configuration: " err0).
Proof.
  split.
  - destruct (proj2 (Complete_error_sources
                       example_config.noConfigFile example_config.valid
                       example_config.emptyEnvironment example_config.noHome
                       example_config.joinWithSlash
                       example_config.defaults example_config.noFlags)
                "failed to determine home directory: $HOME is not defined"
                1%nat eq_refl) as [(H & _)|[H|(cfg & err0 & H & _)]].
    + discriminate H.
    + exact H.
    + discriminate H.
  - destruct (proj2 (Complete_error_sources
                       example_config.noConfigFile example_config.invalid
                       example_config.plainEnvironment example_config.noHome
                       example_config.joinWithSlash
                       example_config.defaults example_config.noFlags)
                "invalid configuration: parallel must be at least 1"
                O eq_refl) as [(_ & H & _)|[(k & err0 & H & _)|H]].
    + exfalso. now apply H.
    + discriminate H.
    + exact H.
Defined.

Lemma Complete_needs_no_home_for_given_path_witness :
  Complete example_config.noConfigFile example_config.valid
    example_config.plainEnvironment example_config.noHome
    example_config.joinWithSlash
    example_config.defaults example_config.noFlags =
  Complete example_config.noConfigFile example_config.valid
    example_config.plainEnvironment example_config.homeOfUser
    example_config.joinWithSlash
    example_config.defaults example_config.noFlags /\
  snd (Complete example_config.noConfigFile example_config.valid
         example_config.plainEnvironment example_config.noHome
         example_config.joinWithSlash
         example_config.defaults example_config.noFlags) = O.
Proof.
  apply (Complete_needs_no_home_for_given_path
           example_config.noConfigFile example_config.valid
           example_config.plainEnvironment example_config.joinWithSlash
           example_config.noHome example_config.homeOfUser
           example_config.defaults example_config.noFlags
           {| at_c := example_config.defaults; at_loaded := None |}).
  - reflexivity.
  - cbn. split; [discriminate|reflexivity].
Defined.

Lemma resolveKubeconfig_error_sources_witness :
  "" = "" /\
  exists k err0,
    1%nat = S k /\ example_config.noHome k = inr err0 /\
    "failed to determine home directory: $HOME is not defined" =
    Errorf_w "failed to determine home directory: " err0.
Proof.
  exact (proj2 (resolveKubeconfig_error_sources
                  example_config.emptyEnvironment example_config.noHome
                  example_config.joinWithSlash "")
           "" "failed to determine home directory: $HOME is not defined" 1%nat
           eq_refl).
Defined.

Lemma homeOfUser_plain : plainHome example_config.homeOfUser.
Proof.
  intros n homeDir H. injection H as <-. split; [discriminate|reflexivity].
Defined.

Lemma resolveKubeconfig_idempotent_witness :
  resolveKubeconfig example_config.tildeEnvironment example_config.homeOfUser
    example_config.joinWithSlash "/home/user/clusters//home/usertest" =
  (("/home/user/clusters//home/usertest", None), O).
Proof.
  apply (resolveKubeconfig_idempotent
           example_config.tildeEnvironment example_config.homeOfUser
           example_config.joinWithSlash "" _ 1
           homeOfUser_plain joinWithSlash_non_empty).
  reflexivity.
Defined.

Lemma resolveKubeconfig_expands_every_tilde_witness :
  resolveKubeconfig example_config.tildeEnvironment example_config.homeOfUser
    example_config.joinWithSlash "" =
  (("/home/user/clusters//home/usertest", None), 1%nat) /\
  ~ In "~"%char (list_ascii_of_string "/home/user/clusters//home/usertest").
Proof.
  destruct (resolveKubeconfig_expands_every_tilde
              example_config.tildeEnvironment example_config.homeOfUser
              example_config.joinWithSlash "" "/home/user" eq_refl eq_refl)
    as (Hres & _ & Hfree).
  split; [exact Hres|]. apply Hfree.
  cbn. intuition discriminate.
Defined.

Lemma Complete_agrees_with_resolveKubeconfig_witness :
  Complete example_config.noConfigFile example_config.valid
    example_config.emptyEnvironment example_config.noHome
    example_config.joinWithSlash
    example_config.defaults example_config.noFlags =
  (Err "failed to determine home directory: $HOME is not defined", 1%nat) /\
  Complete example_config.noConfigFile example_config.valid
    example_config.plainEnvironment example_config.homeOfUser
    example_config.joinWithSlash
    example_config.defaults example_config.noFlags =
  (Ok {| at_c := set_Kubeconfig "/etc/kubernetes/admin.conf" example_config.defaults;
         at_loaded := None |}, O).
Proof.
  split.
  - apply (proj1 (Complete_agrees_with_resolveKubeconfig
                    example_config.noConfigFile example_config.valid
                    example_config.emptyEnvironment example_config.noHome
                    example_config.joinWithSlash
                    example_config.defaults example_config.noFlags eq_refl)
             "").
    reflexivity.
  - apply (proj2 (Complete_agrees_with_resolveKubeconfig
                    example_config.noConfigFile example_config.valid
                    example_config.plainEnvironment example_config.homeOfUser
                    example_config.joinWithSlash
                    example_config.defaults example_config.noFlags eq_refl)).
    + reflexivity.
    + reflexivity.
    + intros homeDir H. injection H as <-. reflexivity.
    + reflexivity.
    + reflexivity.
Defined.

Lemma mergeFile_DryRun_is_disjunction_witness :
  DryRun (at_result
            {| at_c := example_config.withConfigFile "hydrophone.yaml";
               at_loaded := Some example_config.fromFile |}) =
  DryRun (example_config.withConfigFile "hydrophone.yaml")
  || DryRun example_config.fromFile.
Proof.
  apply (mergeFile_DryRun_is_disjunction
           example_config.loadsFromFile
           (example_config.withConfigFile "hydrophone.yaml")
           (changedFlags ["dry-run"]) example_config.fromFile).
  - discriminate.
  - reflexivity.
  - reflexivity.
Defined.

Lemma registered_flag_is_honoured_witness :
  exists loadConfiguration c,
    mergeFile loadConfiguration c (changedFlags []) <>
    mergeFile loadConfiguration c (changedFlags ["skip"]).
Proof.
  apply (registered_flag_is_honoured example_config.defaults
           (StringVar Skip "skip" (Skip example_config.defaults)
              "skip specific tests. allows regular expressions.")).
  - cbn. tauto.
  - discriminate.
  - discriminate.
Defined.

End FurtherConfigRuns.
